(** * Adaptive batching of multicalls: a shallow embedding of
      [multicall.py] and [call.py]

    The development follows the Python sources function by function:
    - Python integers are [Z]; [len(calls)] is [Z.of_nat (length calls)];
      [//] is [Z.div] (both round towards minus infinity);
    - list slices [calls[a:b]] follow Python's rules for negative and
      out-of-range bounds ([py_slice]);
    - the [while True] loop of [batch_calls] and the recursion of
      [fetch_outputs] take fuel, [None] / [OutOfFuel] standing for a run
      that needs more steps than the fuel allows;
    - [round(len(calls) * 0.99)] is computed on IEEE-754 binary64 values
      ([SpecFloat]), as CPython does;
    - exceptions are values of an outcome type. *)

From Stdlib Require Import ZArith List Bool Lia String Ascii SpecFloat
  DecimalString.
Import ListNotations.
Open Scope Z_scope.

Set Implicit Arguments.

(** ** Python lists: [len] and slices *)

Section PyList.
Context {A : Type}.

Definition len (l : list A) : Z := Z.of_nat (List.length l).

(** A slice bound [i] on a list of length [n]: a negative bound counts
    from the end, and the result is clamped to [0 .. n]. *)
Definition py_bound (n i : Z) : Z :=
  if i <? 0 then Z.max 0 (i + n) else Z.min i n.

(** [l[start:stop]] *)
Definition py_slice (l : list A) (start stop : Z) : list A :=
  let lo := py_bound (len l) start in
  let hi := py_bound (len l) stop in
  firstn (Z.to_nat (hi - lo)) (skipn (Z.to_nat lo) l).

(** [l[:stop]] and [l[start:]] *)
Definition py_slice_to (l : list A) (stop : Z) : list A :=
  py_slice l 0 stop.
Definition py_slice_from (l : list A) (start : Z) : list A :=
  py_slice l start (len l).
End PyList.

(** ** Exceptions and outcomes *)

(** An exception is known to this code only through [str(e)]. *)
Inductive exn : Type := Exception (message : string).

Definition str (e : exn) : string := let 'Exception m := e in m.

(** The result of running a piece of Python: a value, a raised
    exception, or not finished within the fuel given. *)
Inductive outcome (A : Type) : Type :=
| Ok (a : A)
| Raise (e : exn)
| OutOfFuel.
Arguments Ok {A} a.
Arguments Raise {A} e.
Arguments OutOfFuel {A}.

(** ** Floats: [round(n * 0.99)] *)

(** CPython floats are IEEE-754 binary64. *)
Definition prec : Z := 53.
Definition emax : Z := 1024.

(** [float(n)] for an integer [n]: the nearest double, ties to even. *)
Definition float_of_int (n : Z) : spec_float :=
  binary_normalize prec emax n 0 false.

(** The literal [0.99]: the double nearest to 99/100. *)
Definition f099 : spec_float := S754_finite false 8917127262193582 (-53).

(** [m * 2^e] rounded to the nearest integer, ties to even. *)
Definition round_half_even (m e : Z) : Z :=
  if 0 <=? e then m * 2 ^ e
  else
    let d := 2 ^ (- e) in
    let q := m / d in
    let r := m mod d in
    match 2 * r ?= d with
    | Lt => q
    | Gt => q + 1
    | Eq => if Z.even q then q else q + 1
    end.

(** [round(x)] with one argument: an integer; [None] where Python raises
    (infinities and NaN). *)
Definition py_round (x : spec_float) : option Z :=
  match x with
  | S754_zero _ => Some 0
  | S754_finite s m e => Some (cond_Zopp s (round_half_even (Zpos m) e))
  | S754_infinity _ | S754_nan => None
  end.

(** [round(n * 0.99)] *)
Definition round_mul_099 (n : Z) : option Z :=
  py_round (SFmul prec emax (float_of_int n) f099).

(** The exception of a float computation that has no integer result. *)
Definition overflow_error : exn :=
  Exception "cannot convert float infinity to integer".

(** ** [NotSoBrightBatcher] *)

(** The object has the single slot [step]. *)
Record batcher : Type := mk_batcher { step : Z }.

(** [__init__] *)
Definition batcher_init : batcher := {| step := 10000 |}.

Section Batcher.
Context {Call : Type}.

(** The body of the [while True] loop of [batch_calls]; [batches] is
    the list built so far. *)
Fixpoint batch_loop (fuel : nat) (calls : list Call) (stp start done : Z)
         (batches : list (list Call)) : option (list (list Call)) :=
  match fuel with
  | O => None
  | S fuel' =>
      let end_ := start + stp in
      let batches' := batches ++ [py_slice calls start end_] in
      if end_ >=? done then Some batches'
      else batch_loop fuel' calls stp end_ done batches'
  end.

Definition batch_calls (fuel : nat) (calls : list Call) (stp : Z)
  : option (list (list Call)) :=
  batch_loop fuel calls stp 0 (len calls - 1) [].

Definition split_calls (calls : list Call) : list Call * list Call :=
  let center := len calls / 2 in
  let chunk_1 := py_slice_to calls center in
  let chunk_2 := py_slice_from calls center in
  (chunk_1, chunk_2).

(** [round(len(calls) * 0.99) if len(calls) >= 100 else len(calls) - 1] *)
Definition new_step (n : Z) : option Z :=
  if n >=? 100 then round_mul_099 n else Some (n - 1).

(** [rebatch]: the sub-batches to retry and the batcher afterwards.
    The warning it logs is not modelled. *)
Definition rebatch (fuel : nat) (b : batcher) (calls : list Call)
  : outcome (list (list Call)) * batcher :=
  if step b <=? len calls / 2 then
    match batch_calls fuel calls (step b) with
    | Some batches => (Ok batches, b)
    | None => (OutOfFuel, b)
    end
  else if step b >=? len calls then
    match new_step (len calls) with
    | Some new => let (chunk_1, chunk_2) := split_calls calls in
                  (Ok [chunk_1; chunk_2], {| step := new |})
    | None => (Raise overflow_error, b)
    end
  else
    let (chunk_1, chunk_2) := split_calls calls in
    (Ok [chunk_1; chunk_2], b).
End Batcher.

(** ** [_raise_or_proceed] *)

Definition lower_ascii (c : ascii) : ascii :=
  let n := nat_of_ascii c in
  if (Nat.leb 65 n && Nat.leb n 90)%bool then ascii_of_nat (n + 32) else c.

(** [s.lower()] on a string of ASCII characters *)
Fixpoint lower (s : string) : string :=
  match s with
  | EmptyString => EmptyString
  | String c s' => String (lower_ascii c) (lower s')
  end.

(** [needle in hay] *)
Fixpoint contains (needle hay : string) : bool :=
  (prefix needle hay ||
   match hay with
   | EmptyString => false
   | String _ hay' => contains needle hay'
   end)%bool.

Definition rebatch_triggers : list string :=
  [ "request entity too large"; "payload too large"; "time-out"; "timeout";
    "broken pipe"; "connection reset by peer";
    "out of gas"; "out of memory"; "server error" ]%string.

(** [Ok tt] is the plain [return]: the caller goes on to re-batch. *)
Definition _raise_or_proceed (e : exn) (ct_calls : Z) : outcome unit :=
  let error_str := lower (str e) in
  if existsb (fun trigger => contains trigger error_str) rebatch_triggers then
    if (contains "out of gas" error_str && (ct_calls =? 1))%bool then Raise e
    else Ok tt
  else Raise e.

(** ** Python values *)

(** What [decode_data] and the handlers of [returns] produce: [None], a
    value of the ABI ([V], left open), a sequence, or a dict whose items
    are kept in insertion order. *)
#[warnings="-register-all"] Inductive pyval (V : Type) : Type :=
| PyNone
| PyAtom (v : V)
| PySeq (items : list (pyval V))
| PyDict (items : list (string * pyval V)).
Arguments PyNone {V}.
Arguments PyAtom {V} v.
Arguments PySeq {V} items.
Arguments PyDict {V} items.

Section PyDict.
Context {V : Type}.

(** [d[k] = v]: a key already present keeps its place. *)
Fixpoint dict_set (d : list (string * pyval V)) (k : string) (v : pyval V)
  : list (string * pyval V) :=
  match d with
  | [] => [(k, v)]
  | (k', v') :: d' =>
      if String.eqb k' k then (k', v) :: d'
      else (k', v') :: dict_set d' k v
  end.
End PyDict.

(** ** [Call.decode_output] *)

Section Decode.
(** [Signature] lives in [signature.py]; of it this code uses only
    [decode_data], which returns the tuple of decoded values, or raises
    ([None]). [Decodable] is the type of raw outputs. *)
Variables V Signature Decodable : Type.
Variable decode_data : Signature -> Decodable -> option (list (pyval V)).

(** A handler of [returns] is a Python callable; it is called with one
    argument, [handler(value)], or with two, [handler(success, value)],
    and may raise. *)
Record handler : Type := mk_handler {
  call1 : pyval V -> outcome (pyval V);
  call2 : option bool -> pyval V -> outcome (pyval V)
}.

Definition returns_spec : Type := list (string * option handler).

(** [len(returns) if returns else 1] *)
Definition null_slots (returns : option returns_spec) : nat :=
  match returns with
  | Some ((_ :: _) as r) => List.length r
  | _ => 1%nat
  end.

(** The dict comprehension over [zip(returns, decoded)], item by item;
    [d] is the dict built so far. *)
Fixpoint build_dict (apply_handler : handler -> pyval V -> outcome (pyval V))
         (items : list ((string * option handler) * pyval V))
         (d : list (string * pyval V)) : outcome (pyval V) :=
  match items with
  | [] => Ok (PyDict d)
  | ((name, h), value) :: items' =>
      let bound := match h with
                   | Some handler => apply_handler handler value
                   | None => Ok value
                   end in
      match bound with
      | Ok v => build_dict apply_handler items' (dict_set d name v)
      | Raise e => Raise e
      | OutOfFuel => OutOfFuel
      end
  end.

Definition index_error : exn := Exception "tuple index out of range".

Definition decode_output (output : Decodable) (signature : Signature)
           (returns : option returns_spec) (success : option bool)
  : outcome (pyval V) :=
  let nulls := repeat PyNone (null_slots returns) in
  (* [success] is assigned again when decoding fails *)
  let '(success_now, decoded) :=
    match success with
    | None | Some true =>
        match decode_data signature output with
        | Some decoded => (success, decoded)
        | None => (Some false, nulls)
        end
    | Some false => (success, nulls)
    end in
  (* the lambda is chosen on the argument [success]; the two-argument
     one reads the variable [success] when it is called *)
  let apply_handler handler value :=
    match success with
    | None => call1 handler value
    | Some _ => call2 handler success_now value
    end in
  match returns with
  | Some ((_ :: _) as r) => build_dict apply_handler (combine r decoded) []
  | _ =>
      if len decoded >? 1 then Ok (PySeq decoded)
      else match decoded with
           | d0 :: _ => Ok d0
           | [] => Raise index_error
           end
  end.

(** ** [Call] and [Multicall] *)

(** The slots of [Call] that the batched path reads. *)
Record Call : Type := mk_call {
  target : string;
  function : string;
  args : option (list (pyval V));
  signature : Signature;
  returns : option returns_spec
}.

(** The node behind [self.aggregate.coroutine(args)]: given the calls
    of one batch it raises, or returns one [(success, output)] pair per
    sub-call; [World] is whatever it depends on, and it may change with
    every request. Building [args] ([get_args]) happens inside the same
    [try] and is part of it. *)
Variable World : Type.
Variable aggregate :
  World -> list Call -> (exn + list (bool * Decodable)) * World.

(** A [Multicall] while it runs: its batcher, the node, and the batches
    sent so far, in order. *)
Record state : Type := mk_state {
  st_batcher : batcher;
  st_world : World;
  st_sent : list (list Call)
}.

(** [asyncio.gather] over the coroutines [f batch], run one after the
    other in the order of [batches]; results are in that order, and the
    first exception is raised. *)
Fixpoint gather {R : Type} (f : list Call -> state -> outcome R * state)
         (batches : list (list Call)) (st : state)
  : outcome (list R) * state :=
  match batches with
  | [] => (Ok [], st)
  | batch :: batches' =>
      let (r, st1) := f batch st in
      match r with
      | Ok res =>
          let (rs, st2) := gather f batches' st1 in
          (match rs with
           | Ok l => Ok (res :: l)
           | Raise e => Raise e
           | OutOfFuel => OutOfFuel
           end, st2)
      | Raise e => (Raise e, st1)
      | OutOfFuel => (OutOfFuel, st1)
      end
  end.

(** One turn of the [for] loop of [fetch_outputs]: the decoded result,
    or [None] when decoding raised. *)
Definition decode_call (item : Call * (bool * Decodable)) : pyval V :=
  let '(call, (success, output)) := item in
  match decode_output output (signature call) (returns call) (Some success) with
  | Ok decoded_result => decoded_result
  | _ => PyNone
  end.

(** [[item for batch_results in results_in_batches for item in batch_results]] *)
Definition flatten (r : outcome (list (list (pyval V))))
  : outcome (list (pyval V)) :=
  match r with
  | Ok results_in_batches => Ok (List.concat results_in_batches)
  | Raise e => Raise e
  | OutOfFuel => OutOfFuel
  end.

Fixpoint fetch_outputs (fuel : nat) (calls : list Call) (st : state)
  : outcome (list (pyval V)) * state :=
  match fuel with
  | O => (OutOfFuel, st)
  | S fuel' =>
      let (response, w) := aggregate (st_world st) calls in
      let st1 := {| st_batcher := st_batcher st; st_world := w;
                    st_sent := st_sent st ++ [calls] |} in
      match response with
      | inr outputs => (Ok (map decode_call (combine calls outputs)), st1)
      | inl e =>
          match _raise_or_proceed e (len calls) with
          | Raise e' => (Raise e', st1)
          | OutOfFuel => (OutOfFuel, st1)
          | Ok _ =>
              let (sub, b) := rebatch fuel (st_batcher st1) calls in
              let st2 := {| st_batcher := b; st_world := w;
                            st_sent := st_sent st1 |} in
              match sub with
              | Ok sub_batches =>
                  let (rs, st3) := gather (fetch_outputs fuel') sub_batches st2 in
                  (flatten rs, st3)
              | Raise e' => (Raise e', st2)
              | OutOfFuel => (OutOfFuel, st2)
              end
          end
      end
  end.

(** [Multicall.coroutine] *)
Definition coroutine (fuel : nat) (calls : list Call) (st : state)
  : outcome (list (pyval V)) * state :=
  match batch_calls fuel calls (step (st_batcher st)) with
  | None => (OutOfFuel, st)
  | Some batches =>
      let (rs, st') := gather (fetch_outputs fuel) batches st in
      (flatten rs, st')
  end.

(** A new [Multicall] ([__init__] makes a new batcher), awaited once. *)
Definition multicall_init (w : World) : state :=
  {| st_batcher := batcher_init; st_world := w; st_sent := [] |}.

Definition run (fuel : nat) (calls : list Call) (w : World)
  : outcome (list (pyval V)) * state :=
  coroutine fuel calls (multicall_init w).
End Decode.

(** ** [utils.py], [prep_args], [Call.__call__], [Call.coroutine] *)

(** The values that make up a request to the node, and the arguments of
    the aggregate call. *)
Inductive atom (Bytes : Type) : Type :=
| ABool (b : bool)
| AInt (n : Z)
| AStr (s : string)
| ABytes (data : Bytes).
Arguments ABool {Bytes} b.
Arguments AInt {Bytes} n.
Arguments AStr {Bytes} s.
Arguments ABytes {Bytes} data.

(** [if s:] on an optional string, [if n:] on an optional integer. *)
Definition truthy_str (s : option string) : bool :=
  match s with
  | Some (String _ _) => true
  | _ => false
  end.

Definition truthy_int (n : option Z) : bool :=
  match n with
  | Some z => negb (z =? 0)
  | None => false
  end.

(** [a or b] on optional integers and on optional lists. *)
Definition or_int (a b : option Z) : option Z :=
  if truthy_int a then a else b.

Definition or_list {A : Type} (a b : option (list A)) : option (list A) :=
  match a with
  | Some (_ :: _) => a
  | _ => b
  end.

(** [str(n)] *)
Definition str_of_int (n : Z) : string := NilZero.string_of_int (Z.to_int n).

Section SingleCall.
Variables Signature Decodable Bytes : Type.

(** [Signature] is in [signature.py]: [decode_data] as before, and
    [encode_data], which gives the call data or raises;
    [get_signature] makes the signature of a function description. *)
Variable decode_data :
  Signature -> Decodable -> option (list (pyval (atom Bytes))).
Variable encode_data :
  Signature -> option (list (pyval (atom Bytes))) -> outcome Bytes.
Variable get_signature : string -> Signature.

(** A node handle ([Web3]); of web3 this code uses [w3.eth.chain_id],
    [w3.eth.call], the default handle [web3.auto.w3] and
    [to_checksum_address]. [get_async_w3] turns a handle into the
    asynchronous one for the same endpoint. *)
Variable W3 : Type.
Variable eth_chain_id : W3 -> Z.
Variable default_w3 : W3.
Variable get_async_w3 : W3 -> W3.
Variable to_checksum_address : string -> string.

(** Of the constants module: the chains without state override, the
    address of the multicall contract with its exceptions by chain, its
    bytecode. *)
Variable NO_STATE_OVERRIDE : list Z.
Variable MULTICALL3_ADDRESS : string.
Variable MULTICALL3_EXCEPTIONS : list (Z * string).
Variable MULTICALL3_BYTECODE : string.

Definition request : Type := list (pyval (atom Bytes)).

(** The world behind the handles, and the requests made of it. *)
Variable World : Type.
Variable eth_call : W3 -> World -> request -> (exn + Decodable) * World.

Record node : Type := mk_node {
  nd_world : World;
  nd_calls : list (W3 * request)
}.

(** [utils.chain_id] and [utils.state_override_supported] *)
Definition chain_id (w3 : W3) : Z := eth_chain_id w3.

Definition state_override_supported (w3 : W3) : bool :=
  negb (existsb (Z.eqb (chain_id w3)) NO_STATE_OVERRIDE).

(** [prep_args]. The dict [call_dict] is the first element of
    [prepared_args] from the start, and gets its keys afterwards; the
    list is written here once the dict is complete. *)
Definition prep_args (target : string) (signature : Signature)
           (args : option (list (pyval (atom Bytes))))
           (block_id : option Z) (origin : option string)
           (gas_limit : option Z) (state_override_code : option string)
  : outcome request :=
  match encode_data signature args with
  | Ok calldata =>
      let call_dict := [("to"%string, PyAtom (AStr target));
                        ("data"%string, PyAtom (ABytes calldata))] in
      let after_block := match block_id with
                         | Some b => [PyAtom (AInt b)]
                         | None => []
                         end in
      let call_dict :=
        match origin with
        | Some o => if truthy_str origin
                    then dict_set call_dict "from" (PyAtom (AStr o))
                    else call_dict
        | None => call_dict
        end in
      let call_dict :=
        match gas_limit with
        | Some g => if truthy_int gas_limit
                    then dict_set call_dict "gas" (PyAtom (AInt g))
                    else call_dict
        | None => call_dict
        end in
      let after_override :=
        match state_override_code with
        | Some code =>
            if truthy_str state_override_code then
              after_block
              ++ match block_id with
                 | None => [PyAtom (AStr "latest")]
                 | Some _ => []
                 end
              ++ [PyDict [(target, PyDict [("code"%string, PyAtom (AStr code))])]]
            else after_block
        | None => after_block
        end in
      Ok (PyDict call_dict :: after_override)
  | Raise e => Raise e
  | OutOfFuel => OutOfFuel
  end.

(** The slots of [Call] that only the single-call path reads. *)
Record call_slots : Type := mk_call_slots {
  block_id : option Z;
  gas_limit : option Z;
  state_override_code : option string;
  w3 : option W3;
  origin : option string
}.

(** [self.w3 or _w3], and the default handle when both are [None]. *)
Definition pick_w3 (slots : call_slots) (_w3 : option W3) : W3 :=
  match w3 slots with
  | Some handle => handle
  | None => match _w3 with
            | Some handle => handle
            | None => default_w3
            end
  end.

(** The request made on [handle] and the decoding of what comes back,
    common to [__call__] and [coroutine]. *)
Definition call_node (call : Call (atom Bytes) Signature) (slots : call_slots)
           (handle : W3) (call_args : option (list (pyval (atom Bytes))))
           (block : option Z) (nd : node)
  : outcome (pyval (atom Bytes)) * node :=
  match prep_args (target call) (signature call)
                  (or_list call_args (args call))
                  (or_int block (block_id slots))
                  (origin slots) (gas_limit slots) (state_override_code slots) with
  | Ok prepared =>
      let (answer, world) := eth_call handle (nd_world nd) prepared in
      let nd' := {| nd_world := world;
                    nd_calls := nd_calls nd ++ [(handle, prepared)] |} in
      match answer with
      | inr output =>
          (decode_output decode_data output (signature call) (returns call) None,
           nd')
      | inl e => (Raise e, nd')
      end
  | Raise e => (Raise e, nd)
  | OutOfFuel => (OutOfFuel, nd)
  end.

(** [Call.__call__] *)
Definition __call__ (call : Call (atom Bytes) Signature) (slots : call_slots)
           (call_args : option (list (pyval (atom Bytes)))) (_w3 : option W3)
           (block : option Z) (nd : node)
  : outcome (pyval (atom Bytes)) * node :=
  call_node call slots (pick_w3 slots _w3) call_args block nd.

Definition value_error (handle : W3) : exn :=
  Exception ("State override is not supported on chain "
             ++ str_of_int (chain_id handle) ++ ".").

(** [Call.coroutine]; the semaphore around the request is not modelled. *)
Definition call_coroutine (call : Call (atom Bytes) Signature) (slots : call_slots)
           (call_args : option (list (pyval (atom Bytes)))) (_w3 : option W3)
           (block : option Z) (nd : node)
  : outcome (pyval (atom Bytes)) * node :=
  let handle := pick_w3 slots _w3 in
  if truthy_str (state_override_code slots)
     && negb (state_override_supported handle)
  then (Raise (value_error handle), nd)
  else call_node call slots (get_async_w3 handle) call_args block nd.

(** [Call.__init__] for a function given as a string, as [Multicall]
    gives it: the object is the [Call] record and its other slots. *)
Definition call_init (target function : string)
           (returns : option (returns_spec (atom Bytes)))
           (block : option Z) (gas : option Z) (code : option string)
           (_w3 : option W3) (origin : option string)
  : Call (atom Bytes) Signature * call_slots :=
  ({| target := to_checksum_address target;
      function := function;
      args := None;
      signature := get_signature function;
      returns := returns |},
   {| block_id := block;
      gas_limit := gas;
      state_override_code := code;
      w3 := _w3;
      origin := if truthy_str origin
                then option_map to_checksum_address origin
                else None |}).

(** The slots of [Multicall] read by [aggregate] and [get_args]. *)
Record multicall : Type := mk_multicall {
  mc_block_id : option Z;
  mc_gas_limit : Z;
  mc_require_success : bool;
  mc_w3 : W3;
  mc_chainid : Z;
  mc_contract_address : string;
  mc_bytecode : string
}.

(** [MULTICALL3_EXCEPTIONS.get(chainid, MULTICALL3_ADDRESS)] *)
Fixpoint exceptions_get (d : list (Z * string)) (chainid : Z) (default : string)
  : string :=
  match d with
  | [] => default
  | (k, address) :: d' =>
      if k =? chainid then address else exceptions_get d' chainid default
  end.

(** [Multicall.__init__], for a handle that is given. *)
Definition multicall_new (handle : W3) (block : option Z) (gas : Z)
           (require_success : bool) : multicall :=
  {| mc_block_id := block;
     mc_gas_limit := gas;
     mc_require_success := require_success;
     mc_w3 := get_async_w3 handle;
     mc_chainid := chain_id handle;
     mc_contract_address :=
       exceptions_get MULTICALL3_EXCEPTIONS (chain_id handle) MULTICALL3_ADDRESS;
     mc_bytecode := MULTICALL3_BYTECODE |}.

Definition multicall_sig : string :=
  "tryAggregate(bool,(address,bytes)[])((bool,bytes)[])".

(** [Multicall.aggregate] *)
Definition aggregate_call (m : multicall)
  : Call (atom Bytes) Signature * call_slots :=
  if state_override_supported (mc_w3 m) then
    call_init (mc_contract_address m) multicall_sig None (mc_block_id m)
              (Some (mc_gas_limit m)) (Some (mc_bytecode m)) (Some (mc_w3 m)) None
  else
    call_init (mc_contract_address m) multicall_sig None (mc_block_id m)
              (Some (mc_gas_limit m)) None (Some (mc_w3 m)) None.

(** [call.data] for each call, in order, up to the first that raises. *)
Fixpoint encode_calls (calls : list (Call (atom Bytes) Signature))
  : outcome (list (pyval (atom Bytes))) :=
  match calls with
  | [] => Ok []
  | call :: calls' =>
      match encode_data (signature call) (args call) with
      | Ok data =>
          match encode_calls calls' with
          | Ok pairs =>
              Ok (PySeq [PyAtom (AStr (target call)); PyAtom (ABytes data)] :: pairs)
          | Raise e => Raise e
          | OutOfFuel => OutOfFuel
          end
      | Raise e => Raise e
      | OutOfFuel => OutOfFuel
      end
  end.

(** [Multicall.get_args] *)
Definition get_args (m : multicall) (calls : list (Call (atom Bytes) Signature))
  : outcome (list (pyval (atom Bytes))) :=
  match encode_calls calls with
  | Ok pairs => Ok [PyAtom (ABool (mc_require_success m)); PySeq pairs]
  | Raise e => Raise e
  | OutOfFuel => OutOfFuel
  end.

(** The first lines of the [try] of [fetch_outputs]: the arguments, then
    the aggregate call awaited on them. *)
Definition dispatch (m : multicall) (calls : list (Call (atom Bytes) Signature))
           (nd : node) : outcome (pyval (atom Bytes)) * node :=
  match get_args m calls with
  | Ok call_args =>
      let (call, slots) := aggregate_call m in
      call_coroutine call slots (Some call_args) None None nd
  | Raise e => (Raise e, nd)
  | OutOfFuel => (OutOfFuel, nd)
  end.
End SingleCall.

(** * Statements used below *)

(** [ceil(n / s)] for [s > 0] *)
Definition ceil_div (n s : Z) : Z := (n + s - 1) / s.

Section PartitionSpec.
Context {A : Type}.

(** What [batch_calls] computes on [rest], the calls from [start] on,
    when [stp >= 1]: it takes [stp] of them and stops as soon as at most
    one more is left. *)
Inductive chunked (stp : Z) : list A -> list (list A) -> Prop :=
| chunked_stop rest :
    len rest - 1 <= stp ->
    chunked stp rest [firstn (Z.to_nat stp) rest]
| chunked_next rest batches :
    stp < len rest - 1 ->
    chunked stp (skipn (Z.to_nat stp) rest) batches ->
    chunked stp rest (firstn (Z.to_nat stp) rest :: batches).

(** A partition of [calls] into [ceil(N/S)] chunks, all of size [S] but
    possibly the last, none empty, whose concatenation is [calls]. *)
Definition partition_ok (calls : list A) (stp : Z) (batches : list (list A)) : Prop :=
  len batches = ceil_div (len calls) stp /\
  Forall (fun chunk => len chunk = stp) (removelast batches) /\
  Forall (fun chunk => 1 <= len chunk <= stp) batches /\
  List.concat batches = calls.
End PartitionSpec.

(** [a / b] rounded to the nearest integer, ties to even, for [b > 0]:
    what [round] gives on an exact quotient. *)
Definition round_div (a b : Z) : Z :=
  let q := a / b in
  let r := a mod b in
  match 2 * r ?= b with
  | Lt => q
  | Gt => q + 1
  | Eq => if Z.even q then q else q + 1
  end.

(** [start; start + 1; ...], [count] numbers *)
Fixpoint zrange (start : Z) (count : nat) : list Z :=
  match count with
  | O => []
  | S count' => start :: zrange (start + 1) count'
  end.

(** On [n], the double computation [round(n * 0.99)] gives an integer
    below [n], the same as the exact [99 n / 100] rounded. *)
Definition shrinks (n : Z) : bool :=
  match round_mul_099 n with
  | Some s => (s <? n) && (s =? round_div (99 * n) 100)
  | None => false
  end.

Section RebatchSpec.
Context {Call : Type}.

Definition halves (calls : list Call) : list (list Call) :=
  [ firstn (Z.to_nat (len calls / 2)) calls;
    skipn (Z.to_nat (len calls / 2)) calls ].

(** The decision rule of [rebatch] as the specification words it: keep
    [step] and re-partition when [step <= len(calls) // 2], and in every
    other case shrink [step] and return the two halves. *)
Definition rebatch_rule_as_stated (fuel : nat) (b : batcher) (calls : list Call) : Prop :=
  let (sub, b') := rebatch fuel b calls in
  if step b <=? len calls / 2 then
    b' = b /\
    sub = match batch_calls fuel calls (step b) with
          | Some batches => Ok batches
          | None => OutOfFuel
          end
  else
    Some (step b') = new_step (len calls) /\ sub = Ok (halves calls).

(** The operations of a [NotSoBrightBatcher]. *)
Inductive batcher_op : Type :=
| Op_batch_calls (calls : list Call) (stp : Z)
| Op_split_calls (calls : list Call)
| Op_rebatch (calls : list Call).

(** The batcher after an operation; only [rebatch] assigns [self.step]. *)
Definition batcher_do (fuel : nat) (b : batcher) (op : batcher_op) : batcher :=
  match op with
  | Op_batch_calls _ _ => b
  | Op_split_calls _ => b
  | Op_rebatch calls => snd (rebatch fuel b calls)
  end.

(** The batchers met in the life of one instance. *)
Inductive reachable : batcher -> Prop :=
| reachable_init : reachable batcher_init
| reachable_do b fuel op : reachable b -> reachable (batcher_do fuel b op).
End RebatchSpec.
Arguments reachable Call b : clear implicits.
Arguments reachable_init Call : clear implicits.

(** The error matches a trigger of [rebatch_triggers]. *)
Definition marked (e : exn) : Prop :=
  exists trigger,
    In trigger rebatch_triggers /\ contains trigger (lower (str e)) = true.

(** The error says out of gas, on a batch of one call. *)
Definition single_out_of_gas (e : exn) (ct_calls : Z) : Prop :=
  contains "out of gas" (lower (str e)) = true /\ ct_calls = 1.

Section DecodeSpec.
Context {V : Type}.

(** What a name of [returns] is bound to when the call failed: its
    handler applied to [(False, None)], or [None] without a handler. *)
Definition null_binding (entry : string * option (handler V)) (v : pyval V) : Prop :=
  match snd entry with
  | Some h => call2 h (Some false) PyNone = Ok v
  | None => v = PyNone
  end.

(** [res] is a dict with the names of [r], in the order of [r], each
    bound as [null_binding] says. *)
Definition null_mapping (r : returns_spec V) (res : outcome (pyval V)) : Prop :=
  exists d,
    res = Ok (PyDict d) /\
    map fst d = map fst r /\
    Forall2 (fun entry item => null_binding entry (snd item)) r d.
End DecodeSpec.

(** From a step of at most 10000, [step] is not raised between the two
    states. *)
Definition step_kept_or_lowered {V Signature World : Type}
           (st st' : state V Signature World) : Prop :=
  step (st_batcher st) <= 10000 ->
  step (st_batcher st') <= step (st_batcher st).

Section DecodeMoreSpec.
Context {V : Type}.

(** [d[k]] as a lookup: [None] when [k] is not a key. *)
Fixpoint dict_get (d : list (string * pyval V)) (k : string) : option (pyval V) :=
  match d with
  | [] => None
  | (k', v) :: d' => if String.eqb k' k then Some v else dict_get d' k
  end.

(** The name of an item of [zip(returns, decoded)]. *)
Definition item_name (item : (string * option (handler V)) * pyval V) : string :=
  fst (fst item).

(** What the dict comprehension binds the name of an item to. *)
Definition item_bound (apply_handler : handler V -> pyval V -> outcome (pyval V))
           (item : (string * option (handler V)) * pyval V) : outcome (pyval V) :=
  match snd (fst item) with
  | Some h => apply_handler h (snd item)
  | None => Ok (snd item)
  end.

(** The call of a handler when decoding succeeded: with one argument
    when [success] is not given, else with [success] and the value. *)
Definition handler_applied (success : option bool) (h : handler V) (value : pyval V)
  : outcome (pyval V) :=
  match success with
  | None => call1 h value
  | Some _ => call2 h success value
  end.

(** [kv] is the key and value that the comprehension makes of [item]. *)
Definition bound_by (apply_handler : handler V -> pyval V -> outcome (pyval V))
           (item : (string * option (handler V)) * pyval V)
           (kv : string * pyval V) : Prop :=
  fst kv = item_name item /\ item_bound apply_handler item = Ok (snd kv).
End DecodeMoreSpec.

(** * A node to run the engine on *)

(** A stand-in for [Signature]: the number of values a function returns.
    Decoding the raw output [output] gives that many copies of it;
    negative outputs do not decode. *)
Definition demo_decode_data (sig : nat) (output : Z) : option (list (pyval Z)) :=
  if output <? 0 then None else Some (repeat (PyAtom output) sig).

Definition demo_call (sig : nat) (returns : option (returns_spec Z)) (arg : Z)
  : Call Z nat :=
  {| target := "0xcA11bde05977b3631167028862bE2a173976CA11";
     function := "f(int256)";
     args := Some [PyAtom arg];
     signature := sig;
     returns := returns |}.

(** The call number [i] returns one value and has no [returns]. *)
Definition numbered_call (i : Z) : Call Z nat := demo_call 1 None i.

Definition numbered_calls (count : Z) : list (Call Z nat) :=
  map numbered_call (zrange 0 (Z.to_nat count)).

(** Every sub-call succeeds and returns its argument. *)
Definition echo (calls : list (Call Z nat)) : list (bool * Z) :=
  map (fun call => (true, match args call with
                          | Some [PyAtom arg] => arg
                          | _ => 0
                          end)) calls.

(** A node that follows a script, one entry per request: [Some message]
    fails the request with that message, [None] answers it; when the
    script is over every request is answered. *)
Definition demo_aggregate (script : list (option string)) (calls : list (Call Z nat))
  : (exn + list (bool * Z)) * list (option string) :=
  match script with
  | Some message :: script' => (inl (Exception message), script')
  | None :: script' => (inr (echo calls), script')
  | [] => (inr (echo calls), [])
  end.

(** A handler that passes the value on when the call succeeded and gives
    0 when it failed. *)
Definition or_zero : handler Z :=
  {| call1 := fun value => Ok value;
     call2 := fun success value =>
                match success with
                | Some true => Ok value
                | _ => Ok (PyAtom 0)
                end |}.

(** A handler that raises on [None]. *)
Definition strict : handler Z :=
  {| call1 := fun value =>
                match value with
                | PyNone => Raise (Exception "value is None")
                | _ => Ok value
                end;
     call2 := fun _ value =>
                match value with
                | PyNone => Raise (Exception "value is None")
                | _ => Ok value
                end |}.

(** A stand-in for the single-call path: the call data is the number of
    arguments, and [None] as first argument does not encode; handles are
    chain ids; chain 324 has no state override; the node returns the
    number of positional arguments of the request. *)
Definition demo_encode_data (sig : nat) (args : option (list (pyval (atom Z))))
  : outcome Z :=
  match args with
  | Some (PyNone :: _) => Raise (Exception "cannot encode None")
  | Some l => Ok (len l)
  | None => Ok 0
  end.

Definition demo_decode_atoms (sig : nat) (output : Z)
  : option (list (pyval (atom Z))) :=
  if output <? 0 then None else Some (repeat (PyAtom (AInt output)) sig).

Definition demo_eth_call (handle : Z) (world : unit) (prepared : request Z)
  : (exn + Z) * unit :=
  (inr (len prepared), tt).

Definition demo_get_signature (function : string) : nat := 1%nat.

Definition demo_multicall (chain : Z) : multicall Z :=
  multicall_new (fun handle : Z => handle) (fun handle : Z => handle)
                "0xcA11bde05977b3631167028862bE2a173976CA11" [] "0x6080"
                chain None 50000000 false.

(** * Properties *)

(** ** Slices *)

Section PyListFacts.
Context {A : Type}.
Implicit Types l : list A.

Lemma len_nonneg l : 0 <= len l.
Proof. unfold len; lia. Qed.

Lemma len_nil : len (@nil A) = 0.
Proof. reflexivity. Qed.

Lemma len_cons (x : A) l : len (x :: l) = 1 + len l.
Proof. unfold len. cbn [List.length]. lia. Qed.

Lemma len_app l l' : len (l ++ l') = len l + len l'.
Proof. unfold len. rewrite length_app. lia. Qed.

Lemma len_firstn l (n : Z) : 0 <= n -> len (firstn (Z.to_nat n) l) = Z.min n (len l).
Proof. intros Hn. unfold len. rewrite length_firstn. lia. Qed.

Lemma len_skipn l (n : Z) : 0 <= n -> len (skipn (Z.to_nat n) l) = Z.max 0 (len l - n).
Proof. intros Hn. unfold len. rewrite length_skipn. lia. Qed.

(** A slice with bounds [start <= start + n], both non-negative, is the
    window of [n] elements after the first [start]. *)
Lemma py_slice_window l (start n : Z) :
  0 <= start -> 0 <= n ->
  py_slice l start (start + n) = firstn (Z.to_nat n) (skipn (Z.to_nat start) l).
Proof.
  intros Hs Hn. unfold py_slice, py_bound.
  destruct (Z.ltb_spec start 0) as [?|_]; [lia|].
  destruct (Z.ltb_spec (start + n) 0) as [?|_]; [lia|].
  destruct (Z_le_gt_dec start (len l)) as [Hle|Hgt].
  - rewrite (Z.min_l start) by assumption.
    replace (Z.to_nat (Z.min (start + n) (len l) - start))
      with (Nat.min (Z.to_nat n) (List.length (skipn (Z.to_nat start) l))).
    + rewrite <- firstn_firstn, firstn_all. reflexivity.
    + rewrite length_skipn. unfold len in *. lia.
  - rewrite !Z.min_r by lia. rewrite Z.sub_diag. simpl.
    rewrite (skipn_all2 (n := Z.to_nat start)) by (unfold len in *; lia).
    now rewrite firstn_nil.
Qed.

Lemma firstn_plus (n m : nat) l :
  firstn (n + m) l = firstn n l ++ firstn m (skipn n l).
Proof.
  revert l. induction n as [|n IH]; intros l; [reflexivity|].
  destruct l as [|x l]; [simpl; now rewrite firstn_nil|].
  simpl. now rewrite IH.
Qed.

Lemma py_slice_to_firstn l (n : Z) :
  0 <= n -> py_slice_to l n = firstn (Z.to_nat n) l.
Proof.
  intros Hn. unfold py_slice_to.
  change n with (0 + n) at 1. now rewrite py_slice_window by lia.
Qed.

Lemma py_slice_from_skipn l (n : Z) :
  0 <= n -> py_slice_from l n = skipn (Z.to_nat n) l.
Proof.
  intros Hn. unfold py_slice_from, py_slice, py_bound.
  destruct (Z.ltb_spec n 0) as [?|_]; [lia|].
  pose proof (len_nonneg l) as Hl.
  destruct (Z.ltb_spec (len l) 0) as [?|_]; [lia|].
  rewrite (Z.min_id (len l)).
  destruct (Z_le_gt_dec n (len l)) as [Hle|Hgt].
  - rewrite Z.min_l by assumption.
    apply firstn_all2. rewrite length_skipn. unfold len in *. lia.
  - rewrite Z.min_r by lia. rewrite Z.sub_diag. simpl.
    symmetry. apply skipn_all2. unfold len in *. lia.
Qed.
End PyListFacts.

(** ** [batch_calls] *)

Section BatchCallsFacts.
Context {A : Type}.
Implicit Types calls rest : list A.

(** The loop computes [chunked], and stops within [len calls - start + 1]
    turns. *)
Lemma batch_loop_chunked calls (stp : Z) :
  1 <= stp ->
  forall (fuel : nat) (start : Z) (acc : list (list A)),
    0 <= start <= len calls ->
    (Z.to_nat (len calls - start) < fuel)%nat ->
    exists batches,
      batch_loop fuel calls stp start (len calls - 1) acc = Some (acc ++ batches) /\
      chunked stp (skipn (Z.to_nat start) calls) batches.
Proof.
  intros Hstp fuel. induction fuel as [|fuel IH]; intros start acc Hstart Hfuel.
  - lia.
  - cbn [batch_loop]. rewrite py_slice_window by lia.
    destruct (Z.geb_spec (start + stp) (len calls - 1)) as [Hge|Hlt].
    + eexists. split; [reflexivity|].
      apply chunked_stop. rewrite len_skipn by lia. lia.
    + destruct (IH (start + stp)
                   (acc ++ [firstn (Z.to_nat stp) (skipn (Z.to_nat start) calls)]))
        as (batches & Hrun & Hch); [lia|lia|].
      exists (firstn (Z.to_nat stp) (skipn (Z.to_nat start) calls) :: batches).
      split.
      * rewrite Hrun, <- app_assoc. reflexivity.
      * apply chunked_next.
        -- rewrite len_skipn by lia. lia.
        -- rewrite skipn_skipn.
           replace (Z.to_nat stp + Z.to_nat start)%nat with (Z.to_nat (start + stp)) by lia.
           exact Hch.
Qed.

Lemma batch_calls_chunked calls (stp : Z) (fuel : nat) :
  1 <= stp -> (List.length calls < fuel)%nat ->
  exists batches,
    batch_calls fuel calls stp = Some batches /\ chunked stp calls batches.
Proof.
  intros Hstp Hfuel. unfold batch_calls.
  destruct (@batch_loop_chunked calls stp Hstp fuel 0 [])
    as (batches & Hrun & Hch).
  - pose proof (len_nonneg calls). lia.
  - unfold len. lia.
  - exists batches. split; assumption.
Qed.

Lemma chunked_nonempty (stp : Z) rest batches :
  chunked stp rest batches -> batches <> [].
Proof. intros H. destruct H; discriminate. Qed.

(** When the calls left are not one more than a multiple of [stp], the
    loop covers them all. *)
Lemma chunked_partition (stp : Z) rest batches :
  1 <= stp ->
  chunked stp rest batches ->
  1 <= len rest ->
  len rest = 1 \/ (len rest - 1) mod stp <> 0 ->
  partition_ok rest stp batches.
Proof.
  intros Hstp H. induction H as [rest Hle | rest batches Hlt H IH];
    intros Hpos Hmod.
  - assert (Hfit : len rest <= stp).
    { destruct Hmod as [->|Hmod]; [lia|].
      destruct (Z.eq_dec (len rest - 1) stp) as [E|E]; [|lia].
      rewrite E, Z.mod_same in Hmod by lia. congruence. }
    assert (Hall : firstn (Z.to_nat stp) rest = rest).
    { apply firstn_all2. unfold len in *. lia. }
    rewrite Hall. repeat split.
    + unfold ceil_div. change (len [rest]) with 1.
      apply Z.div_unique with (r := len rest - 1); lia.
    + constructor.
    + repeat constructor; lia.
    + simpl. apply app_nil_r.
  - assert (Hrest : len (skipn (Z.to_nat stp) rest) = len rest - stp).
    { rewrite len_skipn by lia. lia. }
    assert (Hmod' : (len rest - 1) mod stp <> 0) by (destruct Hmod; [lia|assumption]).
    destruct IH as (Hcount & Hsizes & Hbounds & Hcat).
    + lia.
    + right. rewrite Hrest.
      replace (len rest - stp - 1) with (len rest - 1 + (-1) * stp) by lia.
      now rewrite Z.mod_add by lia.
    + assert (Hfirst : len (firstn (Z.to_nat stp) rest) = stp).
      { rewrite len_firstn by lia. lia. }
      repeat split.
      * rewrite len_cons, Hcount, Hrest. unfold ceil_div.
        replace (len rest + stp - 1) with (len rest - stp + stp - 1 + 1 * stp) by lia.
        rewrite Z.div_add by lia. lia.
      * pose proof (chunked_nonempty H) as Hne.
        destruct batches as [|b bs]; [congruence|].
        cbn [removelast]. constructor; assumption.
      * constructor; [lia|]. assumption.
      * cbn [List.concat]. rewrite Hcat. apply firstn_skipn.
Qed.
End BatchCallsFacts.

Section BatchCallsClaims.
Context {A : Type}.
Implicit Types calls : list A.

(** When there are [k * stp + 1] calls, [k >= 1], the loop stops one call
    short: the batches hold all the calls but the last. *)
Lemma chunked_drops_last (stp : Z) calls batches :
  1 <= stp ->
  chunked stp calls batches ->
  2 <= len calls -> (len calls - 1) mod stp = 0 ->
  List.concat batches = firstn (Z.to_nat (len calls - 1)) calls.
Proof.
  intros Hstp H. induction H as [rest Hle | rest batches Hlt H IH];
    intros Hlen Hmod.
  - assert (E : len rest - 1 = stp).
    { apply Z.mod_divide in Hmod; [|lia]. destruct Hmod as [k Hk].
      assert (k = 1) by nia. subst k. lia. }
    rewrite E. simpl. apply app_nil_r.
  - assert (Hrest : len (skipn (Z.to_nat stp) rest) = len rest - stp).
    { rewrite len_skipn by lia. lia. }
    cbn [List.concat]. rewrite IH.
    + rewrite Hrest.
      rewrite <- firstn_plus. f_equal. lia.
    + lia.
    + rewrite Hrest.
      replace (len rest - stp - 1) with (len rest - 1 + (-1) * stp) by lia.
      now rewrite Z.mod_add by lia.
Qed.

(** C2, as amended: for [S >= 1], [batch_calls] returns; on the empty
    list it returns the single empty chunk; on [N >= 1] calls with
    [N = 1] or [N - 1] not a multiple of [S] it returns [ceil(N/S)]
    chunks, each of size [S] but possibly the last, none empty, whose
    concatenation is the list of calls. *)
Theorem batch_calls_partition calls (stp : Z) (fuel : nat) :
  1 <= stp -> (List.length calls < fuel)%nat ->
  (len calls = 0 -> batch_calls fuel calls stp = Some [[]]) /\
  (1 <= len calls -> (len calls = 1 \/ (len calls - 1) mod stp <> 0) ->
   exists batches,
     batch_calls fuel calls stp = Some batches /\
     partition_ok calls stp batches).
Proof.
  intros Hstp Hfuel.
  destruct (batch_calls_chunked calls Hstp Hfuel) as (batches & Hrun & Hch).
  split.
  - intros Hnil. destruct calls as [|c calls]; [|rewrite len_cons in Hnil;
      pose proof (len_nonneg calls); lia].
    rewrite Hrun. inversion Hch as [rest Hle E1 E2 | rest bs Hlt Hbs E1 E2].
    + now rewrite firstn_nil.
    + rewrite len_nil in Hlt. lia.
  - intros Hpos Hmod. exists batches. split; [exact Hrun|].
    now apply chunked_partition.
Qed.

(** X1: [batch_calls] on [k * S + 1 >= 2] calls, [S >= 1], returns
    batches that hold all of them but the last. *)
Lemma batch_calls_drops_last calls (stp : Z) (fuel : nat) :
  1 <= stp -> (List.length calls < fuel)%nat ->
  2 <= len calls -> (len calls - 1) mod stp = 0 ->
  exists batches,
    batch_calls fuel calls stp = Some batches /\
    List.concat batches = removelast calls.
Proof.
  intros Hstp Hfuel Hlen Hmod.
  destruct (batch_calls_chunked calls Hstp Hfuel) as (batches & Hrun & Hch).
  exists batches. split; [exact Hrun|].
  rewrite (chunked_drops_last Hstp Hch Hlen Hmod).
  rewrite removelast_firstn_len. f_equal. unfold len. lia.
Qed.
End BatchCallsClaims.

Lemma batch_calls_partition_witness :
  exists batches,
    batch_calls 6 [1; 2; 3; 4; 5] 3 = Some batches /\
    partition_ok [1; 2; 3; 4; 5] 3 batches.
Proof.
  apply (proj2 (@batch_calls_partition Z [1; 2; 3; 4; 5] 3 6
                  ltac:(lia) ltac:(simpl; lia))).
  - vm_compute. discriminate.
  - right. vm_compute. discriminate.
Defined.

(** C2, as stated, fails on the empty list: one chunk is returned where
    [ceil(0/1) = 0] are claimed, and that chunk is empty. *)
Lemma batch_calls_empty_not_partition :
  exists batches,
    batch_calls 1 (@nil Z) 1 = Some batches /\
    ~ partition_ok (@nil Z) 1 batches.
Proof.
  exists [[]]. split; [reflexivity|].
  intros (Hcount & _). vm_compute in Hcount. discriminate.
Qed.

(** ** [round(n * 0.99)] on the sizes a batcher meets *)

Lemma in_zrange (count : nat) : forall (start n : Z),
  start <= n < start + Z.of_nat count -> In n (zrange start count).
Proof.
  induction count as [|count IH]; intros start n Hn; [lia|].
  cbn [zrange]. destruct (Z.eq_dec start n) as [->|Hne]; [now left|].
  right. apply IH. lia.
Qed.

Lemma shrinks_table : forallb shrinks (zrange 100 (Z.to_nat 9901)) = true.
Proof. vm_compute. reflexivity. Qed.

Lemma round_mul_099_shrinks (n : Z) :
  100 <= n <= 10000 ->
  exists s, round_mul_099 n = Some s /\ s < n /\ s = round_div (99 * n) 100.
Proof.
  intros Hn.
  pose proof (proj1 (forallb_forall shrinks _) shrinks_table n) as H.
  specialize (H (@in_zrange (Z.to_nat 9901) 100 n ltac:(lia))).
  unfold shrinks in H. destruct (round_mul_099 n) as [s|]; [|discriminate].
  apply andb_prop in H. destruct H as [H1 H2].
  exists s. repeat split; [now apply Z.ltb_lt | now apply Z.eqb_eq].
Qed.

(** ** [split_calls] and [rebatch] *)

Section RebatchFacts.
Context {Call : Type}.
Implicit Types calls : list Call.

Lemma half_nonneg calls : 0 <= len calls / 2.
Proof. apply Z.div_pos; [apply len_nonneg | lia]. Qed.

Lemma split_calls_halves calls :
  split_calls calls =
  (firstn (Z.to_nat (len calls / 2)) calls, skipn (Z.to_nat (len calls / 2)) calls).
Proof.
  unfold split_calls. pose proof (half_nonneg calls).
  now rewrite py_slice_to_firstn, py_slice_from_skipn.
Qed.

Lemma split_calls_sizes calls :
  len (fst (split_calls calls)) = len calls / 2 /\
  len (snd (split_calls calls)) = len calls - len calls / 2 /\
  fst (split_calls calls) ++ snd (split_calls calls) = calls.
Proof.
  rewrite split_calls_halves. cbn [fst snd].
  pose proof (half_nonneg calls). pose proof (len_nonneg calls).
  assert (len calls / 2 <= len calls) by (apply Z.div_le_upper_bound; lia).
  rewrite len_firstn, len_skipn by assumption.
  repeat split; [lia | lia | apply firstn_skipn].
Qed.

Lemma rebatch_keep (fuel : nat) (b : batcher) calls :
  step b <= len calls / 2 ->
  rebatch fuel b calls =
  (match batch_calls fuel calls (step b) with
   | Some batches => Ok batches
   | None => OutOfFuel
   end, b).
Proof.
  intros H. unfold rebatch.
  destruct (Z.leb_spec (step b) (len calls / 2)); [|lia].
  now destruct (batch_calls fuel calls (step b)).
Qed.

Lemma rebatch_shrink (fuel : nat) (b : batcher) calls (s : Z) :
  len calls / 2 < step b -> len calls <= step b ->
  new_step (len calls) = Some s ->
  rebatch fuel b calls = (Ok (halves calls), {| step := s |}).
Proof.
  intros H1 H2 Hs. unfold rebatch.
  destruct (Z.leb_spec (step b) (len calls / 2)); [lia|].
  destruct (Z.geb_spec (step b) (len calls)); [|lia].
  rewrite Hs, split_calls_halves. reflexivity.
Qed.

Lemma rebatch_bisect (fuel : nat) (b : batcher) calls :
  len calls / 2 < step b < len calls ->
  rebatch fuel b calls = (Ok (halves calls), b).
Proof.
  intros H. unfold rebatch.
  destruct (Z.leb_spec (step b) (len calls / 2)); [lia|].
  destruct (Z.geb_spec (step b) (len calls)); [lia|].
  rewrite split_calls_halves. reflexivity.
Qed.

(** C3, as amended: with [step <= len(calls) // 2], [rebatch] re-partitions
    [calls] with the step it has and keeps it (and returns, for
    [step >= 1]); with [step >= len(calls)] it sets [step] to
    [round(len(calls) * 0.99)] when [len(calls) >= 100], else to
    [len(calls) - 1], and returns the two halves; with
    [len(calls) // 2 < step < len(calls)] it returns the two halves and
    keeps [step]. The halves have sizes [B // 2] and [B - B // 2]. *)
Theorem rebatch_rule (fuel : nat) (b : batcher) calls :
  (step b <= len calls / 2 ->
   rebatch fuel b calls =
   (match batch_calls fuel calls (step b) with
    | Some batches => Ok batches
    | None => OutOfFuel
    end, b) /\
   (1 <= step b -> (List.length calls < fuel)%nat ->
    exists batches, rebatch fuel b calls = (Ok batches, b))) /\
  (len calls / 2 < step b -> len calls <= step b -> len calls < 100 ->
   rebatch fuel b calls = (Ok (halves calls), {| step := len calls - 1 |})) /\
  (len calls / 2 < step b -> len calls <= step b -> 100 <= len calls ->
   forall s, round_mul_099 (len calls) = Some s ->
   rebatch fuel b calls = (Ok (halves calls), {| step := s |})) /\
  (len calls / 2 < step b < len calls ->
   rebatch fuel b calls = (Ok (halves calls), b)) /\
  (exists chunk_1 chunk_2,
     halves calls = [chunk_1; chunk_2] /\
     len chunk_1 = len calls / 2 /\
     len chunk_2 = len calls - len calls / 2 /\
     chunk_1 ++ chunk_2 = calls).
Proof.
  repeat split.
  - now apply rebatch_keep.
  - intros Hstep Hfuel. rewrite rebatch_keep by assumption.
    destruct (batch_calls_chunked calls Hstep Hfuel) as (batches & -> & _).
    now exists batches.
  - intros H1 H2 H3. apply rebatch_shrink; try assumption.
    unfold new_step. now destruct (Z.geb_spec (len calls) 100); [lia|].
  - intros H1 H2 H3 s Hs. apply rebatch_shrink; try assumption.
    unfold new_step. now destruct (Z.geb_spec (len calls) 100); [|lia].
  - apply rebatch_bisect.
  - pose proof (split_calls_sizes calls) as H.
    rewrite split_calls_halves in H. cbn [fst snd] in H.
    do 2 eexists. split; [reflexivity|]. exact H.
Qed.

(** A step of at most 10000 is kept or lowered by [rebatch]. *)
Lemma rebatch_step (fuel : nat) (b : batcher) calls :
  step b <= 10000 ->
  snd (rebatch fuel b calls) = b \/ step (snd (rebatch fuel b calls)) < step b.
Proof.
  intros Hb.
  destruct (Z_le_gt_dec (step b) (len calls / 2)) as [Hkeep|Hhalf].
  - left. now rewrite rebatch_keep.
  - destruct (Z_le_gt_dec (len calls) (step b)) as [Hshrink|Hmid].
    + right. destruct (Z_lt_ge_dec (len calls) 100) as [Hsmall|Hbig].
      * rewrite (rebatch_shrink fuel b calls (s := len calls - 1)); cbn; try lia.
        unfold new_step. now destruct (Z.geb_spec (len calls) 100); [lia|].
      * destruct (round_mul_099_shrinks (n := len calls)) as (s & Hs & Hlt & _); [lia|].
        rewrite (rebatch_shrink fuel b calls (s := s)); cbn; try lia.
        unfold new_step. now destruct (Z.geb_spec (len calls) 100); [|lia].
    + left. rewrite rebatch_bisect by lia. reflexivity.
Qed.

Lemma batcher_do_step (fuel : nat) (b : batcher) (op : batcher_op (Call := Call)) :
  step b <= 10000 ->
  step (batcher_do fuel b op) = step b \/ step (batcher_do fuel b op) < step b.
Proof.
  intros Hb. destruct op as [calls stp | calls | calls]; cbn; try (now left).
  destruct (@rebatch_step fuel b calls Hb) as [-> | Hlt]; [now left | now right].
Qed.

Lemma reachable_bound (b : batcher) :
  reachable Call b -> step b <= 10000.
Proof.
  induction 1 as [|b fuel op Hb IH]; [cbn; lia|].
  destruct (@batcher_do_step fuel b op IH); lia.
Qed.

(** C7: a batcher starts with [step = 10000], and every operation on a
    batcher met in its life leaves [step] as it is or lowers it. *)
Theorem step_never_increases (b : batcher) :
  reachable Call b ->
  step batcher_init = 10000 /\
  step b <= 10000 /\
  forall (fuel : nat) (op : batcher_op (Call := Call)),
    step (batcher_do fuel b op) = step b \/ step (batcher_do fuel b op) < step b.
Proof.
  intros Hb. pose proof (reachable_bound Hb) as Hle.
  repeat split; [exact Hle|]. intros fuel op. now apply batcher_do_step.
Qed.

(** On a batch of one call with [step >= 1], [rebatch] sets [step] to 0
    and returns the empty batch followed by the batch itself. *)
Lemma rebatch_single (fuel : nat) (b : batcher) (call : Call) :
  1 <= step b ->
  rebatch fuel b [call] = (Ok [[]; [call]], {| step := 0 |}).
Proof.
  intros Hb. apply (rebatch_shrink fuel b [call] (s := 0)); cbn; try lia.
  reflexivity.
Qed.
End RebatchFacts.

Lemma step_never_increases_witness :
  let b := batcher_do 0 batcher_init (Op_rebatch (zrange 0 250)) in
  reachable Z b /\
  step batcher_init = 10000 /\
  step b <= 10000 /\
  forall (fuel : nat) (op : batcher_op (Call := Z)),
    step (batcher_do fuel b op) = step b \/ step (batcher_do fuel b op) < step b.
Proof.
  split.
  - apply reachable_do, reachable_init.
  - apply step_never_increases. apply reachable_do, reachable_init.
Defined.

(** C3, as stated, fails for a batch of 10 calls at [step = 6]: the step
    is above half the batch, and it is kept, not set to 9. *)
Lemma rebatch_keeps_step_between :
  ~ rebatch_rule_as_stated 0 {| step := 6 |} (zrange 0 10).
Proof.
  unfold rebatch_rule_as_stated. vm_compute. intros [H _]. discriminate.
Qed.

(** ** [_raise_or_proceed] *)

Lemma prefix_app (t s : string) :
  prefix t s = true <-> exists post, s = (t ++ post)%string.
Proof.
  revert s. induction t as [|a t IH]; intros s.
  - split; [intros _; now exists s | intros _; now destruct s].
  - destruct s as [|b s]; cbn [prefix].
    + split; [discriminate | intros [post H]; discriminate].
    + destruct (ascii_dec a b) as [->|Hne].
      * rewrite IH. split; intros [post H]; exists post.
        -- now rewrite H.
        -- cbn in H. now inversion H.
      * split; [discriminate|]. intros [post H]. cbn in H. inversion H. congruence.
Qed.

(** [contains] is the substring test. *)
Lemma contains_spec (t s : string) :
  contains t s = true <-> exists pre post, s = (pre ++ t ++ post)%string.
Proof.
  split.
  - induction s as [|c s IH]; cbn [contains]; rewrite orb_true_iff.
    + intros [H|H]; [|discriminate].
      apply prefix_app in H. destruct H as [post H]. now exists EmptyString, post.
    + intros [H|H].
      * apply prefix_app in H. destruct H as [post H]. now exists EmptyString, post.
      * destruct (IH H) as (pre & post & ->). now exists (String c pre), post.
  - intros (pre & post & ->). induction pre as [|c pre IH].
    + assert (H : prefix t (t ++ post) = true) by (apply prefix_app; now exists post).
      cbn [append]. destruct (t ++ post)%string; cbn [contains]; now rewrite H.
    + cbn [append contains]. rewrite IH. apply orb_true_r.
Qed.

Lemma raise_or_proceed_cases (e : exn) (ct_calls : Z) :
  (_raise_or_proceed e ct_calls = Ok tt /\
   marked e /\ ~ single_out_of_gas e ct_calls) \/
  (_raise_or_proceed e ct_calls = Raise e /\
   ~ (marked e /\ ~ single_out_of_gas e ct_calls)).
Proof.
  unfold _raise_or_proceed, marked, single_out_of_gas.
  destruct (existsb _ rebatch_triggers) eqn:Hany.
  - apply existsb_exists in Hany.
    destruct (contains "out of gas" (lower (str e))) eqn:Hgas; cbn [andb].
    + destruct (Z.eqb_spec ct_calls 1) as [->|Hne].
      * right. split; [reflexivity|]. intros [_ H]. apply H. now split.
      * left. repeat split; [exact Hany|]. intros [_ H]. contradiction.
    + left. repeat split; [exact Hany|]. intros [H _]. discriminate.
  - right. split; [reflexivity|]. intros [[trigger Ht] _].
    assert (existsb (fun t => contains t (lower (str e))) rebatch_triggers = true)
      by (apply existsb_exists; now exists trigger).
    congruence.
Qed.

Lemma raise_or_proceed_iff (e : exn) (ct_calls : Z) :
  _raise_or_proceed e ct_calls = Ok tt <->
  marked e /\ ~ single_out_of_gas e ct_calls.
Proof.
  destruct (raise_or_proceed_cases e ct_calls) as [(-> & H) | (-> & H)].
  - split; [intros _; exact H | reflexivity].
  - split; [discriminate | contradiction].
Qed.

Lemma raise_or_proceed_raises (e : exn) (ct_calls : Z) :
  ~ (marked e /\ ~ single_out_of_gas e ct_calls) ->
  _raise_or_proceed e ct_calls = Raise e.
Proof.
  intros Hn. destruct (raise_or_proceed_cases e ct_calls) as [(_ & H) | (-> & _)];
    [contradiction | reflexivity].
Qed.

(** ** [decode_output] *)

Section DecodeFacts.
Variables V Signature Decodable : Type.
Variable decode_data : Signature -> Decodable -> option (list (pyval V)).

(** C8: with [success] true or not given, no [returns], and [decode_data]
    returning [decoded]: one decoded value is returned as it is, two or
    more are returned as the whole sequence. *)
Theorem decode_output_no_returns
        (output : Decodable) (sig : Signature) (success : option bool)
        (decoded : list (pyval V)) :
  success = None \/ success = Some true ->
  decode_data sig output = Some decoded ->
  (forall v, decoded = [v] -> decode_output decode_data output sig None success = Ok v) /\
  (2 <= len decoded -> decode_output decode_data output sig None success = Ok (PySeq decoded)).
Proof.
  intros Hsucc Hdec. split.
  - intros v ->. unfold decode_output.
    destruct Hsucc as [-> | ->]; rewrite Hdec; reflexivity.
  - intros Hlen. unfold decode_output.
    destruct Hsucc as [-> | ->]; rewrite Hdec;
      destruct (Z.gtb_spec (len decoded) 1); try lia; reflexivity.
Qed.

Lemma dict_set_fresh (d : list (string * pyval V)) (k : string) (v : pyval V) :
  ~ In k (map fst d) -> dict_set d k v = d ++ [(k, v)].
Proof.
  induction d as [|[k' v'] d IH]; intros Hk; [reflexivity|].
  cbn [dict_set]. destruct (String.eqb_spec k' k) as [->|Hne].
  - exfalso. apply Hk. now left.
  - rewrite IH; [reflexivity|]. intros Hin. apply Hk. now right.
Qed.

(** The dict comprehension over names that are distinct and new to the
    dict built so far, all values being [None]. *)
Lemma build_dict_nulls (apply_handler : handler V -> pyval V -> outcome (pyval V)) :
  (forall h, apply_handler h PyNone = call2 h (Some false) PyNone) ->
  forall (r : returns_spec V) (acc : list (string * pyval V)),
    NoDup (map fst r) ->
    (forall k, In k (map fst r) -> ~ In k (map fst acc)) ->
    (forall name h, In (name, Some h) r -> exists v, call2 h (Some false) PyNone = Ok v) ->
    exists d,
      build_dict apply_handler (combine r (repeat PyNone (List.length r))) acc
      = Ok (PyDict (acc ++ d)) /\
      map fst d = map fst r /\
      Forall2 (fun entry item => null_binding entry (snd item)) r d.
Proof.
  intros Happly r. induction r as [|[name h] r IH]; intros acc Hnd Hfresh Hret.
  - exists []. cbn. rewrite app_nil_r. repeat split. constructor.
  - cbn [List.length repeat combine build_dict].
    inversion Hnd as [|? ? Hname Hnd']; subst.
    assert (Hv : exists v, match h with
                           | Some handler => apply_handler handler PyNone
                           | None => Ok PyNone
                           end = Ok v /\ null_binding (name, h) v).
    { destruct h as [h|].
      - destruct (Hret name h) as [v Hv]; [now left|].
        exists v. rewrite Happly. now split.
      - exists PyNone. now split. }
    destruct Hv as (v & -> & Hbind).
    rewrite dict_set_fresh by (apply Hfresh; now left).
    destruct (IH (acc ++ [(name, v)])) as (d & Hrun & Hkeys & Hvals).
    + exact Hnd'.
    + intros k Hk. rewrite map_app, in_app_iff. cbn. intros [Hin | [<- | []]].
      * apply (Hfresh k); [now right | exact Hin].
      * contradiction.
    + intros name' h' Hin. apply (Hret name' h'). now right.
    + exists ((name, v) :: d). rewrite Hrun, <- app_assoc. cbn.
      repeat split; [now rewrite Hkeys | now constructor].
Qed.

(** C9, as amended: with [success] false and a [returns] of [K >= 1]
    distinct names whose handlers return on [(False, None)],
    [decode_output] returns, whatever the output and [decode_data], the
    dict of these [K] names in the order of [returns], each bound to its
    handler applied to [(False, None)], or to [None] without a handler. *)
Theorem decode_output_failed
        (output : Decodable) (sig : Signature) (r : returns_spec V) :
  r <> [] ->
  NoDup (map fst r) ->
  (forall name h, In (name, Some h) r -> exists v, call2 h (Some false) PyNone = Ok v) ->
  null_mapping r (decode_output decode_data output sig (Some r) (Some false)) /\
  exists d, decode_output decode_data output sig (Some r) (Some false) = Ok (PyDict d) /\
            List.length d = List.length r.
Proof.
  intros Hne Hnd Hret.
  destruct (@build_dict_nulls (fun h v => call2 h (Some false) v)
              ltac:(reflexivity) r [] Hnd ltac:(intros k _ []) Hret)
    as (d & Hrun & Hkeys & Hvals).
  assert (E : decode_output decode_data output sig (Some r) (Some false) = Ok (PyDict d)).
  { unfold decode_output. destruct r as [|entry r']; [congruence|].
    exact Hrun. }
  split.
  - exists d. now repeat split.
  - exists d. split; [exact E|].
    rewrite <- (length_map fst d), Hkeys. apply length_map.
Qed.
End DecodeFacts.

Lemma decode_output_no_returns_witness :
  (Some true = None \/ Some true = Some true) /\
  demo_decode_data 2 7 = Some [PyAtom 7; PyAtom 7] /\
  (forall v, [PyAtom 7; PyAtom 7] = [v] ->
             decode_output demo_decode_data 7 2%nat None (Some true) = Ok v) /\
  (2 <= len [PyAtom 7; PyAtom 7] ->
   decode_output demo_decode_data 7 2%nat None (Some true)
   = Ok (PySeq [PyAtom 7; PyAtom 7])).
Proof.
  split; [now right|]. split; [reflexivity|].
  apply (@decode_output_no_returns Z nat Z demo_decode_data 7 2%nat (Some true)
           [PyAtom 7; PyAtom 7]).
  - now right.
  - reflexivity.
Defined.

Lemma decode_output_failed_witness :
  let r := [("balance"%string, Some or_zero); ("owner"%string, None)] in
  null_mapping r (decode_output demo_decode_data 7 1%nat (Some r) (Some false)) /\
  exists d, decode_output demo_decode_data 7 1%nat (Some r) (Some false) = Ok (PyDict d) /\
            List.length d = List.length r.
Proof.
  apply (@decode_output_failed Z nat Z demo_decode_data 7 1%nat
           [("balance"%string, Some or_zero); ("owner"%string, None)]).
  - discriminate.
  - repeat constructor; cbn; intuition discriminate.
  - intros name h [H | [H | []]]; inversion H; subst. now exists (PyAtom 0).
Defined.

(** C9, as stated, fails for an empty [returns]: the result is [None],
    not a dict without keys. *)
Lemma decode_output_failed_empty_returns :
  decode_output demo_decode_data 7 1%nat (Some []) (Some false) = Ok PyNone /\
  ~ null_mapping [] (decode_output demo_decode_data 7 1%nat (Some []) (Some false)).
Proof.
  split; [reflexivity|]. intros (d & H & _). cbn in H. discriminate.
Qed.

(** ** [fetch_outputs] and [coroutine] *)

Section EngineFacts.
Variables V Signature Decodable : Type.
Variable decode_data : Signature -> Decodable -> option (list (pyval V)).
Variable World : Type.
Variable aggregate :
  World -> list (Call V Signature) -> (exn + list (bool * Decodable)) * World.

Implicit Types calls : list (Call V Signature).
Implicit Types st : state V Signature World.

(** A batch that the node answers: one request, the batcher untouched,
    one result per answered sub-call. *)
Lemma fetch_outputs_answered (fuel : nat) calls st outputs (w : World) :
  aggregate (st_world st) calls = (inr outputs, w) ->
  fetch_outputs decode_data aggregate (S fuel) calls st =
  (Ok (map (decode_call decode_data) (combine calls outputs)),
   {| st_batcher := st_batcher st; st_world := w;
      st_sent := st_sent st ++ [calls] |}).
Proof. intros H. cbn [fetch_outputs]. now rewrite H. Qed.

(** A batch whose failure is fatal: one request, and the error. *)
Lemma fetch_outputs_fatal (fuel : nat) calls st (e e' : exn) (w : World) :
  aggregate (st_world st) calls = (inl e, w) ->
  _raise_or_proceed e (len calls) = Raise e' ->
  fetch_outputs decode_data aggregate (S fuel) calls st =
  (Raise e',
   {| st_batcher := st_batcher st; st_world := w;
      st_sent := st_sent st ++ [calls] |}).
Proof. intros H H'. cbn [fetch_outputs]. now rewrite H, H'. Qed.

Lemma nth_error_map_combine {A B C : Type} (f : A * B -> C) :
  forall (l : list A) (l' : list B) (i : nat) (a : A) (b : B),
    nth_error l i = Some a -> nth_error l' i = Some b ->
    nth_error (map f (combine l l')) i = Some (f (a, b)).
Proof.
  induction l as [|x l IH]; intros l' i a b Ha Hb.
  - destruct i; discriminate.
  - destruct l' as [|y l']; [destruct i; discriminate|].
    destruct i as [|i]; cbn in *.
    + now inversion Ha; inversion Hb.
    + now apply IH.
Qed.

(** C6: when the node answers a batch, [fetch_outputs] returns after
    that one request, without touching the batcher; the result of each
    call is what [decode_output] returns for it, and [None] when
    [decode_output] raises for it, whatever happens to the other calls. *)
Theorem fetch_outputs_decodes_each (fuel : nat) calls st outputs (w : World) :
  aggregate (st_world st) calls = (inr outputs, w) ->
  exists results,
    fetch_outputs decode_data aggregate (S fuel) calls st =
    (Ok results,
     {| st_batcher := st_batcher st; st_world := w;
        st_sent := st_sent st ++ [calls] |}) /\
    len results = Z.min (len calls) (len outputs) /\
    forall (i : nat) call (success : bool) (output : Decodable),
      nth_error calls i = Some call ->
      nth_error outputs i = Some (success, output) ->
      (forall v,
          decode_output decode_data output (signature call) (returns call)
                        (Some success) = Ok v ->
          nth_error results i = Some v) /\
      (forall e,
          decode_output decode_data output (signature call) (returns call)
                        (Some success) = Raise e ->
          nth_error results i = Some PyNone).
Proof.
  intros H. eexists. split; [exact (@fetch_outputs_answered fuel calls st outputs w H)|]. split.
  - unfold len. rewrite length_map, length_combine. lia.
  - intros i call success output Hc Ho.
    rewrite (nth_error_map_combine (decode_call decode_data) _ _ _ Hc Ho).
    unfold decode_call. split; intros x ->; reflexivity.
Qed.

Lemma gather_cons {R : Type}
      (f : list (Call V Signature) -> state V Signature World
           -> outcome R * state V Signature World) batch batches st :
  gather f (batch :: batches) st =
  let (r, st1) := f batch st in
  match r with
  | Ok res =>
      let (rs, st2) := gather f batches st1 in
      (match rs with
       | Ok l => Ok (res :: l)
       | Raise e => Raise e
       | OutOfFuel => OutOfFuel
       end, st2)
  | Raise e => (Raise e, st1)
  | OutOfFuel => (OutOfFuel, st1)
  end.
Proof. reflexivity. Qed.

(** Requests are only ever added to [st_sent]. *)
Lemma gather_sent {R : Type}
      (f : list (Call V Signature) -> state V Signature World
           -> outcome R * state V Signature World) :
  (forall batch st, exists more, st_sent (snd (f batch st)) = st_sent st ++ more) ->
  forall batches st,
    exists more, st_sent (snd (gather f batches st)) = st_sent st ++ more.
Proof.
  intros Hf batches. induction batches as [|batch batches IH]; intros st.
  - exists []. cbn. now rewrite app_nil_r.
  - cbn [gather]. destruct (Hf batch st) as [more Hmore].
    destruct (f batch st) as [r st1]. cbn [snd] in Hmore.
    destruct r as [res|e|]; try (now exists more).
    destruct (IH st1) as [more' Hmore'].
    destruct (gather f batches st1) as [rs st2]. cbn [snd] in *.
    exists (more ++ more'). now rewrite Hmore', Hmore, app_assoc.
Qed.

Lemma fetch_outputs_sent (fuel : nat) :
  forall calls st,
    exists more,
      st_sent (snd (fetch_outputs decode_data aggregate fuel calls st))
      = st_sent st ++ more.
Proof.
  induction fuel as [|fuel IH]; intros calls st.
  - exists []. cbn. now rewrite app_nil_r.
  - cbn [fetch_outputs st_batcher st_world st_sent].
    destruct (aggregate (st_world st) calls) as [[e|outputs] w].
    + destruct (_raise_or_proceed e (len calls)) as [[]|e'|];
        try (now exists [calls]).
      destruct (rebatch (S fuel) (st_batcher st) calls) as [[sub|e'|] b];
        try (now exists [calls]).
      destruct (gather_sent _ IH sub
                  {| st_batcher := b; st_world := w;
                     st_sent := st_sent st ++ [calls] |}) as [more Hmore].
      destruct (gather _ sub _) as [rs st3]. cbn [snd st_sent] in *.
      exists ([calls] ++ more). now rewrite Hmore, app_assoc.
    + now exists [calls].
Qed.

(** A batch whose failure is to be retried: [rebatch], then the
    sub-batches in turn. *)
Lemma fetch_outputs_retry (fuel : nat) calls st (e : exn) (w : World) :
  aggregate (st_world st) calls = (inl e, w) ->
  _raise_or_proceed e (len calls) = Ok tt ->
  fetch_outputs decode_data aggregate (S fuel) calls st =
  let (sub, b) := rebatch (S fuel) (st_batcher st) calls in
  let st2 := {| st_batcher := b; st_world := w;
                st_sent := st_sent st ++ [calls] |} in
  match sub with
  | Ok sub_batches =>
      let (rs, st3) :=
        gather (fetch_outputs decode_data aggregate fuel) sub_batches st2 in
      (flatten rs, st3)
  | Raise e' => (Raise e', st2)
  | OutOfFuel => (OutOfFuel, st2)
  end.
Proof. intros H H'. cbn [fetch_outputs]. now rewrite H, H'. Qed.

(** With fuel left, the first request of [fetch_outputs] is its batch. *)
Lemma fetch_outputs_sends_batch (fuel : nat) calls st :
  exists more,
    st_sent (snd (fetch_outputs decode_data aggregate (S fuel) calls st))
    = st_sent st ++ calls :: more.
Proof.
  cbn [fetch_outputs st_batcher st_world st_sent].
  destruct (aggregate (st_world st) calls) as [[e|outputs] w].
  - destruct (_raise_or_proceed e (len calls)) as [[]|e'|];
      try (now exists []).
    destruct (rebatch (S fuel) (st_batcher st) calls) as [[sub|e'|] b];
      try (now exists []).
    destruct (gather_sent _ (fetch_outputs_sent fuel) sub
                {| st_batcher := b; st_world := w;
                   st_sent := st_sent st ++ [calls] |}) as [more Hmore].
    destruct (gather _ sub _) as [rs st3]. cbn [snd st_sent] in *.
    exists more. now rewrite Hmore, <- app_assoc.
  - now exists [].
Qed.
End EngineFacts.

Section EngineClaims.
Variables V Signature Decodable : Type.
Variable decode_data : Signature -> Decodable -> option (list (pyval V)).
Variable World : Type.
Variable aggregate :
  World -> list (Call V Signature) -> (exn + list (bool * Decodable)) * World.

Implicit Types calls : list (Call V Signature).
Implicit Types st : state V Signature World.

(** C4: [_raise_or_proceed] returns exactly when the lowered message of
    the error contains one of [rebatch_triggers] and it is not the case
    that it contains "out of gas" while the batch has one call; in every
    other case it raises the same error. A batch of one call that fails
    with out of gas makes [fetch_outputs] raise that error after its one
    request. *)
Theorem raise_or_proceed_classifies (e : exn) (ct_calls : Z) :
  (_raise_or_proceed e ct_calls = Ok tt <->
   marked e /\ ~ single_out_of_gas e ct_calls) /\
  (~ (marked e /\ ~ single_out_of_gas e ct_calls) ->
   _raise_or_proceed e ct_calls = Raise e) /\
  (forall (fuel : nat) (call : Call V Signature) st (w : World),
      contains "out of gas" (lower (str e)) = true ->
      aggregate (st_world st) [call] = (inl e, w) ->
      fetch_outputs decode_data aggregate (S fuel) [call] st =
      (Raise e,
       {| st_batcher := st_batcher st; st_world := w;
          st_sent := st_sent st ++ [[call]] |})).
Proof.
  split; [apply raise_or_proceed_iff|]. split; [apply raise_or_proceed_raises|].
  intros fuel call st w Hgas Hfail.
  apply fetch_outputs_fatal with (e := e); [exact Hfail|].
  apply raise_or_proceed_raises. intros [_ Hn]. apply Hn. now split.
Qed.

(** C5, as amended: a new [Multicall] awaited on the empty list sends one
    request, for the empty batch; when the node answers it, the result
    is the empty list. *)
Theorem run_empty (fuel : nat) (w w' : World) (outputs : list (bool * Decodable)) :
  aggregate w [] = (inr outputs, w') ->
  run decode_data aggregate (S fuel) [] w =
  (Ok [], {| st_batcher := batcher_init; st_world := w'; st_sent := [[]] |}).
Proof.
  intros H. unfold run, coroutine.
  change (batch_calls (S fuel) (@nil (Call V Signature))
            (step (st_batcher (multicall_init V Signature w))))
    with (Some [@nil (Call V Signature)]).
  cbn [gather].
  rewrite (@fetch_outputs_answered _ _ _ decode_data _ aggregate fuel []
             (multicall_init V Signature w) outputs w' H).
  reflexivity.
Qed.

(** C10: a batch of one call, with [step >= 1], whose failure is to be
    retried: [rebatch] sets [step] to 0 and returns the empty batch and
    the batch itself ([split_calls] gives sizes [n // 2] and
    [n - n // 2]); the request that follows is for the empty batch. *)
Theorem retry_of_single_call (fuel : nat) st (call : Call V Signature)
        (e : exn) (w : World) :
  1 <= step (st_batcher st) ->
  aggregate (st_world st) [call] = (inl e, w) ->
  _raise_or_proceed e 1 = Ok tt ->
  (forall fuel', rebatch fuel' (st_batcher st) [call]
                 = (Ok [[]; [call]], {| step := 0 |})) /\
  (forall calls,
      len (fst (split_calls calls)) = len calls / 2 /\
      len (snd (split_calls calls)) = len calls - len calls / 2) /\
  exists more,
    st_sent (snd (fetch_outputs decode_data aggregate (S (S fuel)) [call] st))
    = st_sent st ++ [call] :: [] :: more.
Proof.
  intros Hstep Hfail Hgo. set (fuel' := S fuel). split; [|split].
  - intros fuel''. now apply rebatch_single.
  - intros calls. destruct (split_calls_sizes calls) as (H1 & H2 & _). now split.
  - rewrite (fetch_outputs_retry decode_data aggregate fuel' [call] st Hfail Hgo).
    rewrite (rebatch_single (S fuel') (st_batcher st) call Hstep).
    cbv beta iota zeta. rewrite gather_cons.
    set (st2 := {| st_batcher := {| step := 0 |}; st_world := w;
                   st_sent := st_sent st ++ [[call]] |}).
    destruct (fetch_outputs_sends_batch decode_data aggregate fuel [] st2)
      as [more1 H1].
    subst fuel'.
    destruct (fetch_outputs decode_data aggregate (S fuel) [] st2) as [r1 st3].
    cbn [snd] in H1.
    assert (E : st_sent st3 = st_sent st ++ [call] :: [] :: more1).
    { rewrite H1. subst st2. cbn [st_sent]. now rewrite <- app_assoc. }
    destruct r1 as [res1|e1|]; cbn [snd]; try (now exists more1).
    destruct (gather_sent (fetch_outputs decode_data aggregate (S fuel))
                (fetch_outputs_sent decode_data aggregate (S fuel))
                [[call]] st3) as [more2 H2].
    destruct (gather (fetch_outputs decode_data aggregate (S fuel)) [[call]] st3)
      as [rs st4].
    cbn [snd] in *. exists (more1 ++ more2).
    rewrite H2, E, <- app_assoc. reflexivity.
Qed.
End EngineClaims.

(** ** The engine on the scripted node *)

Lemma run_empty_witness :
  demo_aggregate [] [] = (inr [], []) /\
  run demo_decode_data demo_aggregate 1 [] [] =
  (Ok [], {| st_batcher := batcher_init; st_world := []; st_sent := [[]] |}).
Proof.
  split; [reflexivity|].
  apply (@run_empty Z nat Z demo_decode_data _ demo_aggregate 0 [] [] []).
  reflexivity.
Defined.

(** C5, as stated, fails: awaited on the empty list, a new [Multicall]
    does send a request, for the empty batch. *)
Lemma run_empty_sends_request :
  ~ (fst (run demo_decode_data demo_aggregate 2 [] []) = Ok [] /\
     st_sent (snd (run demo_decode_data demo_aggregate 2 [] [])) = []).
Proof. intros [_ H]. vm_compute in H. discriminate. Qed.

Lemma fetch_outputs_decodes_each_witness :
  let calls := [numbered_call 5; demo_call 0 None 6;
                demo_call 1 (Some [("x"%string, Some strict)]) (-1)] in
  let st := multicall_init Z nat (@nil (option string)) in
  demo_aggregate (st_world st) calls = (inr (echo calls), []) /\
  exists results,
    fetch_outputs demo_decode_data demo_aggregate 1 calls st =
    (Ok results,
     {| st_batcher := st_batcher st; st_world := [];
        st_sent := st_sent st ++ [calls] |}) /\
    len results = Z.min (len calls) (len (echo calls)) /\
    forall (i : nat) call (success : bool) (output : Z),
      nth_error calls i = Some call ->
      nth_error (echo calls) i = Some (success, output) ->
      (forall v,
          decode_output demo_decode_data output (signature call) (returns call)
                        (Some success) = Ok v ->
          nth_error results i = Some v) /\
      (forall e,
          decode_output demo_decode_data output (signature call) (returns call)
                        (Some success) = Raise e ->
          nth_error results i = Some PyNone).
Proof.
  intros calls st. split; [reflexivity|].
  apply (@fetch_outputs_decodes_each Z nat Z demo_decode_data _ demo_aggregate
           0 calls st (echo calls) []).
  reflexivity.
Defined.

(** On these three calls the results are the value 5, [None] for the
    call whose output decodes to no value, and [None] for the call whose
    handler raises. *)
Example fetch_outputs_three_calls :
  fst (fetch_outputs demo_decode_data demo_aggregate 1
         [numbered_call 5; demo_call 0 None 6;
          demo_call 1 (Some [("x"%string, Some strict)]) (-1)]
         (multicall_init Z nat []))
  = Ok [PyAtom 5; PyNone; PyNone].
Proof. reflexivity. Qed.

Lemma retry_of_single_call_witness :
  let st := multicall_init Z nat [Some "read timeout"%string] in
  let call := numbered_call 0 in
  1 <= step (st_batcher st) /\
  demo_aggregate (st_world st) [call] = (inl (Exception "read timeout"), []) /\
  _raise_or_proceed (Exception "read timeout") 1 = Ok tt /\
  (forall fuel', rebatch fuel' (st_batcher st) [call]
                 = (Ok [[]; [call]], {| step := 0 |})) /\
  (forall calls : list (Call Z nat),
      len (fst (split_calls calls)) = len calls / 2 /\
      len (snd (split_calls calls)) = len calls - len calls / 2) /\
  exists more,
    st_sent (snd (fetch_outputs demo_decode_data demo_aggregate 2 [call] st))
    = st_sent st ++ [call] :: [] :: more.
Proof.
  intros st call.
  split; [cbn; lia|]. split; [reflexivity|]. split; [reflexivity|].
  apply (@retry_of_single_call Z nat Z demo_decode_data _ demo_aggregate
           0 st call (Exception "read timeout") []).
  - cbn; lia.
  - reflexivity.
  - reflexivity.
Defined.

Lemma length_zrange (count : nat) (start : Z) :
  List.length (zrange start count) = count.
Proof.
  revert start. induction count as [|count IH]; intros start; [reflexivity|].
  cbn [zrange List.length]. now rewrite IH.
Qed.

Lemma firstn_zrange (n m : nat) (start : Z) :
  firstn n (zrange start (n + m)) = zrange start n.
Proof.
  revert start. induction n as [|n IH]; intros start; [reflexivity|].
  cbn [zrange Nat.add firstn]. now rewrite IH.
Qed.

Lemma len_numbered_calls (count : Z) :
  0 <= count -> len (numbered_calls count) = count.
Proof.
  intros H. unfold len, numbered_calls. rewrite length_map, length_zrange. lia.
Qed.

Lemma numbered_calls_firstn (n m : Z) :
  0 <= n -> 0 <= m ->
  firstn (Z.to_nat n) (numbered_calls (n + m)) = numbered_calls n.
Proof.
  intros Hn Hm. unfold numbered_calls.
  rewrite firstn_map, Z2Nat.inj_add by assumption. now rewrite firstn_zrange.
Qed.

(** The node answers the numbered calls, and each decodes to its number. *)
Lemma numbered_calls_decoded (count : nat) (start : Z) :
  0 <= start ->
  map (decode_call demo_decode_data)
      (combine (map numbered_call (zrange start count))
               (echo (map numbered_call (zrange start count))))
  = map PyAtom (zrange start count).
Proof.
  revert start. induction count as [|count IH]; intros start Hs; [reflexivity|].
  cbn [zrange map echo combine]. f_equal.
  - cbv [decode_call numbered_call demo_call args signature returns
              decode_output demo_decode_data].
    destruct (Z.ltb_spec start 0); [lia | reflexivity].
  - apply IH. lia.
Qed.

(** A new batcher puts the first 10000 of 10001 calls in one batch, and
    stops. *)
Lemma batch_calls_10001 {A : Type} (calls : list A) (fuel : nat) :
  len calls = 10001 ->
  batch_calls (S fuel) calls 10000 = Some [firstn (Z.to_nat 10000) calls].
Proof.
  intros H. unfold batch_calls. cbn [batch_loop]. rewrite H.
  rewrite py_slice_window by lia. reflexivity.
Qed.

(** C1 fails on 10001 calls that all succeed: a new [Multicall] puts the
    first 10000 in one batch, sends that batch alone, and returns 10000
    results; the call number 10000 is never sent. *)
Theorem run_10001_calls_returns_10000 (fuel : nat) :
  exists results st,
    run demo_decode_data demo_aggregate (S fuel) (numbered_calls 10001) []
    = (Ok results, st) /\
    len (numbered_calls 10001) = 10001 /\
    len results = 10000 /\
    results = map PyAtom (zrange 0 (Z.to_nat 10000)) /\
    st_sent st = [numbered_calls 10000].
Proof.
  assert (Hlen : len (numbered_calls 10001) = 10001)
    by (apply len_numbered_calls; lia).
  unfold run, coroutine.
  change (step (st_batcher (multicall_init Z nat (@nil (option string))))) with 10000.
  rewrite (batch_calls_10001 _ fuel Hlen).
  change 10001 with (10000 + 1) at 1.
  rewrite numbered_calls_firstn by lia.
  rewrite gather_cons.
  rewrite (@fetch_outputs_answered Z nat Z demo_decode_data _ demo_aggregate
             fuel (numbered_calls 10000) (multicall_init Z nat [])
             (echo (numbered_calls 10000)) [] eq_refl).
  cbn [gather flatten List.concat st_sent st_batcher multicall_init app].
  rewrite app_nil_r. unfold numbered_calls at 1 2.
  rewrite numbered_calls_decoded by lia.
  do 2 eexists. split; [reflexivity|].
  split; [exact Hlen|].
  split; [unfold len; rewrite length_map, length_zrange; lia|].
  split; reflexivity.
Qed.

(** The same loss on one call whose request times out twice: after the
    first retry [step] is 0, and the second retry re-partitions the call
    into the single empty batch. *)
Example run_single_call_lost :
  fst (run demo_decode_data demo_aggregate 4 [numbered_call 0]
           [Some "timeout"; None; Some "timeout"]%string)
  = Ok [].
Proof. vm_compute. reflexivity. Qed.

(** * Further properties of the batcher *)

Section BatcherMore.
Context {A : Type}.
Implicit Types calls rest : list A.

(** With a step of 0 or less, once the exit test fails it fails ever
    after. *)
Lemma batch_loop_never calls (stp done : Z) :
  stp <= 0 ->
  forall (fuel : nat) (start : Z) (acc : list (list A)),
    start + stp < done -> batch_loop fuel calls stp start done acc = None.
Proof.
  intros Hstp fuel. induction fuel as [|fuel IH]; intros start acc Hstart.
  - reflexivity.
  - cbn [batch_loop]. destruct (Z.geb_spec (start + stp) done); [lia|].
    apply IH. lia.
Qed.

(** A slice from 0 that stops at 0 or before is empty on a list of at
    most one element. *)
Lemma py_slice_short_empty calls (stop : Z) :
  len calls <= 1 -> stop <= 0 -> py_slice calls 0 stop = [].
Proof.
  intros Hlen Hstop. pose proof (len_nonneg calls) as Hnn.
  unfold py_slice.
  assert (E : Z.to_nat (py_bound (len calls) stop - py_bound (len calls) 0) = O).
  { unfold py_bound. destruct (Z.ltb_spec stop 0); destruct (Z.ltb_spec 0 0); lia. }
  rewrite E. reflexivity.
Qed.

Lemma batch_calls_degenerate calls (stp : Z) (fuel : nat) :
  stp <= 0 ->
  batch_calls fuel calls stp = None \/ batch_calls fuel calls stp = Some [[]].
Proof.
  intros Hstp. destruct fuel as [|fuel]; [now left|].
  destruct (Z_le_gt_dec 2 (len calls)) as [Hbig|Hsmall].
  - left. unfold batch_calls. apply batch_loop_never; lia.
  - unfold batch_calls. cbn [batch_loop]. rewrite Z.add_0_l.
    rewrite py_slice_short_empty by lia.
    destruct (Z.geb_spec stp (len calls - 1)) as [Hge|Hlt]; [now right|].
    left. apply batch_loop_never; lia.
Qed.

(** X2: with [step <= 0], the loop of [batch_calls] never exits on two
    or more calls, whatever the fuel; on fewer calls it either never
    exits or returns the single empty batch. No call is ever put in a
    batch. *)
Theorem batch_calls_nonpositive_step calls (stp : Z) (fuel : nat) :
  stp <= 0 ->
  (2 <= len calls -> batch_calls fuel calls stp = None) /\
  (batch_calls fuel calls stp = None \/ batch_calls fuel calls stp = Some [[]]).
Proof.
  intros Hstp. split.
  - intros Hlen. unfold batch_calls. apply batch_loop_never; lia.
  - now apply batch_calls_degenerate.
Qed.

Lemma len_concat_app (l l' : list (list A)) :
  len (List.concat (l ++ l')) = len (List.concat l) + len (List.concat l').
Proof. now rewrite concat_app, len_app. Qed.

(** Whatever the fuel, the batches returned hold no more calls than are
    left from [start] on. *)
Lemma batch_loop_total calls (stp done : Z) :
  1 <= stp ->
  forall (fuel : nat) (start : Z) (acc batches : list (list A)),
    0 <= start ->
    batch_loop fuel calls stp start done acc = Some batches ->
    len (List.concat batches)
    <= len (List.concat acc) + Z.max 0 (len calls - start).
Proof.
  intros Hstp fuel. induction fuel as [|fuel IH];
    intros start acc batches Hstart Hrun; [discriminate|].
  cbn [batch_loop] in Hrun. rewrite py_slice_window in Hrun by lia.
  remember (firstn (Z.to_nat stp) (skipn (Z.to_nat start) calls)) as chunk eqn:Echunk.
  assert (Hchunk : len chunk = Z.min stp (Z.max 0 (len calls - start))).
  { subst chunk. rewrite len_firstn, len_skipn by lia. reflexivity. }
  assert (Hacc : len (List.concat (acc ++ [chunk]))
                 = len (List.concat acc) + len chunk).
  { rewrite len_concat_app. cbn [List.concat]. now rewrite app_nil_r. }
  destruct (Z.geb_spec (start + stp) done).
  - inversion Hrun; subst batches. rewrite Hacc, Hchunk. lia.
  - apply IH in Hrun; [|lia]. rewrite Hacc, Hchunk in Hrun. lia.
Qed.

(** The batches returned, with any step and any fuel, hold no more
    calls than were given. *)
Lemma batch_calls_total calls (stp : Z) (fuel : nat) batches :
  batch_calls fuel calls stp = Some batches ->
  len (List.concat batches) <= len calls.
Proof.
  intros Hrun. pose proof (len_nonneg calls) as Hnn.
  destruct (Z_le_gt_dec stp 0) as [Hneg|Hpos].
  - destruct (batch_calls_degenerate calls fuel Hneg) as [E|E];
      rewrite E in Hrun; [discriminate|].
    inversion Hrun. cbn. exact Hnn.
  - unfold batch_calls in Hrun.
    apply batch_loop_total in Hrun; [|lia|lia].
    cbn [List.concat] in Hrun. rewrite len_nil in Hrun. lia.
Qed.

Lemma chunked_sizes (stp : Z) rest batches :
  1 <= stp ->
  chunked stp rest batches ->
  Forall (fun chunk => len chunk = stp) (removelast batches).
Proof.
  intros Hstp H. induction H as [rest Hle | rest batches Hlt H IH].
  - constructor.
  - pose proof (chunked_nonempty H) as Hne.
    destruct batches as [|b bs]; [congruence|].
    cbn [removelast]. constructor; [|exact IH].
    rewrite len_firstn by lia. lia.
Qed.

Lemma chunked_prefix (stp : Z) rest batches :
  1 <= stp ->
  chunked stp rest batches ->
  exists dropped,
    List.concat batches ++ dropped = rest /\ (List.length dropped <= 1)%nat.
Proof.
  intros Hstp H. induction H as [rest Hle | rest batches Hlt H IH].
  - exists (skipn (Z.to_nat stp) rest). cbn [List.concat]. rewrite app_nil_r.
    split; [apply firstn_skipn|].
    rewrite length_skipn. unfold len in Hle. lia.
  - destruct IH as (dropped & Hcat & Hlen). exists dropped.
    cbn [List.concat]. rewrite <- app_assoc, Hcat.
    split; [apply firstn_skipn | exact Hlen].
Qed.

(** X3: with [step >= 1], [batch_calls] returns a non-empty list of
    batches; every batch but the last holds exactly [step] calls; the
    batches, in order, are the calls in order, except that the last call
    may be missing. *)
Theorem batch_calls_prefix calls (stp : Z) (fuel : nat) :
  1 <= stp -> (List.length calls < fuel)%nat ->
  exists batches dropped,
    batch_calls fuel calls stp = Some batches /\
    batches <> [] /\
    Forall (fun chunk => len chunk = stp) (removelast batches) /\
    List.concat batches ++ dropped = calls /\
    (List.length dropped <= 1)%nat.
Proof.
  intros Hstp Hfuel.
  destruct (batch_calls_chunked calls Hstp Hfuel) as (batches & Hrun & Hch).
  destruct (chunked_prefix Hstp Hch) as (dropped & Hcat & Hlen).
  exists batches, dropped. repeat split; try assumption.
  - eapply chunked_nonempty. exact Hch.
  - eapply chunked_sizes; [exact Hstp | exact Hch].
Qed.
End BatcherMore.

Lemma batch_calls_nonpositive_step_witness :
  0 <= 0 /\
  (2 <= len [1; 2; 3] -> batch_calls 5 [1; 2; 3] 0 = None) /\
  (batch_calls 5 [1; 2; 3] 0 = None \/ batch_calls 5 [1; 2; 3] 0 = Some [[]]).
Proof.
  split; [lia|].
  apply (@batch_calls_nonpositive_step Z [1; 2; 3] 0 5). lia.
Defined.

Lemma batch_calls_prefix_witness :
  1 <= 2 /\ (List.length [1; 2; 3; 4; 5] < 6)%nat /\
  exists batches dropped,
    batch_calls 6 [1; 2; 3; 4; 5] 2 = Some batches /\
    batches <> [] /\
    Forall (fun chunk => len chunk = 2) (removelast batches) /\
    List.concat batches ++ dropped = [1; 2; 3; 4; 5] /\
    (List.length dropped <= 1)%nat.
Proof.
  split; [lia|]. split; [simpl; lia|].
  apply (@batch_calls_prefix Z [1; 2; 3; 4; 5] 2 6); [lia | simpl; lia].
Defined.

Lemma batch_calls_drops_last_witness :
  1 <= 2 /\ (List.length [1; 2; 3; 4; 5] < 6)%nat /\
  2 <= len [1; 2; 3; 4; 5] /\ (len [1; 2; 3; 4; 5] - 1) mod 2 = 0 /\
  exists batches,
    batch_calls 6 [1; 2; 3; 4; 5] 2 = Some batches /\
    List.concat batches = removelast [1; 2; 3; 4; 5].
Proof.
  split; [lia|]. split; [simpl; lia|]. split; [cbn; lia|]. split; [reflexivity|].
  apply (@batch_calls_drops_last Z [1; 2; 3; 4; 5] 2 6);
    [lia | simpl; lia | cbn; lia | reflexivity].
Defined.

Section StepBounds.
Context {Call : Type}.
Implicit Types calls : list Call.

Lemma round_div_lower (a b : Z) : a / b <= round_div a b.
Proof.
  unfold round_div. destruct (2 * (a mod b) ?= b); [|lia|lia].
  destruct (Z.even (a / b)); lia.
Qed.

(** A step between -1 and 10000 stays at -1 or above through [rebatch]. *)
Lemma rebatch_step_lower (fuel : nat) (b : batcher) calls :
  -1 <= step b <= 10000 -> -1 <= step (snd (rebatch fuel b calls)).
Proof.
  intros Hb. pose proof (len_nonneg calls) as Hnn.
  destruct (Z_le_gt_dec (step b) (len calls / 2)) as [Hkeep|Hhalf].
  - rewrite rebatch_keep by assumption. cbn [snd]. lia.
  - destruct (Z_le_gt_dec (len calls) (step b)) as [Hshrink|Hmid].
    + destruct (Z_lt_ge_dec (len calls) 100) as [Hsmall|Hbig].
      * rewrite (rebatch_shrink fuel b calls (s := len calls - 1)); cbn; try lia.
        unfold new_step. now destruct (Z.geb_spec (len calls) 100); [lia|].
      * destruct (round_mul_099_shrinks (n := len calls)) as (s & Hs & _ & Hval); [lia|].
        rewrite (rebatch_shrink fuel b calls (s := s)); cbn; try lia.
        -- pose proof (round_div_lower (99 * len calls) 100) as Hlow.
           assert (0 <= 99 * len calls / 100) by (apply Z.div_pos; lia). lia.
        -- unfold new_step. now destruct (Z.geb_spec (len calls) 100); [|lia].
    + rewrite rebatch_bisect by lia. cbn [snd]. lia.
Qed.

(** X4: over the life of a batcher, [step] stays between -1 and 10000. *)
Theorem step_bounds (b : batcher) :
  reachable Call b -> -1 <= step b <= 10000.
Proof.
  induction 1 as [|b fuel op Hb IH]; [cbn; lia|].
  split.
  - destruct op as [calls stp | calls | calls]; cbn [batcher_do]; try lia.
    now apply rebatch_step_lower.
  - destruct (@batcher_do_step Call fuel b op) as [E|E]; lia.
Qed.
End StepBounds.

Lemma step_bounds_witness :
  let b := batcher_do 0 batcher_init (Op_rebatch (@nil Z)) in
  reachable Z b /\ step b = -1 /\ -1 <= step b <= 10000.
Proof.
  intros b. split; [apply reachable_do, reachable_init|].
  split; [reflexivity|].
  apply (@step_bounds Z b). apply reachable_do, reachable_init.
Defined.

(** * Further properties of the engine *)

Section EngineMore.
Variables V Signature Decodable : Type.
Variable decode_data : Signature -> Decodable -> option (list (pyval V)).
Variable World : Type.
Variable aggregate :
  World -> list (Call V Signature) -> (exn + list (bool * Decodable)) * World.

Implicit Types calls : list (Call V Signature).
Implicit Types st : state V Signature World.

(** With a step that is at least the number of calls, there is one
    batch, of all the calls. *)
Lemma batch_calls_whole {A : Type} (l : list A) (stp : Z) (fuel : nat) :
  len l <= stp -> batch_calls (S fuel) l stp = Some [l].
Proof.
  intros H. pose proof (len_nonneg l) as Hnn.
  unfold batch_calls. cbn [batch_loop].
  destruct (Z.geb_spec (0 + stp) (len l - 1)); [|lia].
  rewrite py_slice_window by lia. cbn [Z.to_nat skipn app].
  rewrite firstn_all2 by (unfold len in *; lia). reflexivity.
Qed.

Lemma combine_app {A B : Type} (l1 l2 : list A) (m1 m2 : list B) :
  List.length m1 = List.length l1 ->
  combine (l1 ++ l2) (m1 ++ m2) = combine l1 m1 ++ combine l2 m2.
Proof.
  revert m1. induction l1 as [|x l1 IH]; intros [|y m1] H; try discriminate.
  - reflexivity.
  - cbn. f_equal. apply IH. now inversion H.
Qed.

(** X5: a new [Multicall] on at most 10000 calls, whose request is
    answered with one output per call, sends that one request for all
    the calls and returns one result per call, in the order of the
    calls: the decoded output of the call, or [None]. *)
Theorem run_answered (fuel : nat) calls (w w' : World)
        (outputs : list (bool * Decodable)) :
  len calls <= 10000 ->
  aggregate w calls = (inr outputs, w') ->
  List.length outputs = List.length calls ->
  run decode_data aggregate (S fuel) calls w =
  (Ok (map (decode_call decode_data) (combine calls outputs)),
   {| st_batcher := batcher_init; st_world := w'; st_sent := [calls] |}) /\
  List.length (map (decode_call decode_data) (combine calls outputs))
  = List.length calls.
Proof.
  intros Hlen Hans Hout. split.
  - unfold run, coroutine.
    change (step (st_batcher (multicall_init V Signature w))) with 10000.
    rewrite batch_calls_whole by assumption.
    rewrite gather_cons.
    rewrite (@fetch_outputs_answered _ _ _ decode_data _ aggregate fuel calls
               (multicall_init V Signature w) outputs w' Hans).
    cbn [gather flatten List.concat]. now rewrite app_nil_r.
  - rewrite length_map, length_combine. lia.
Qed.

(** X6: a batch no larger than [step], with [1 <= step <= 10000], whose
    request fails with an error to retry, and whose two halves are then
    answered: three requests (the batch, the first half, the second
    half), [step] set to the new value, and the results of all the calls
    in their order. *)
Theorem fetch_outputs_one_retry (fuel : nat) calls st (e : exn)
        (w1 w2 w3 : World) (o1 o2 : list (bool * Decodable)) :
  let h1 := firstn (Z.to_nat (len calls / 2)) calls in
  let h2 := skipn (Z.to_nat (len calls / 2)) calls in
  1 <= step (st_batcher st) ->
  len calls <= step (st_batcher st) <= 10000 ->
  aggregate (st_world st) calls = (inl e, w1) ->
  _raise_or_proceed e (len calls) = Ok tt ->
  aggregate w1 h1 = (inr o1, w2) ->
  aggregate w2 h2 = (inr o2, w3) ->
  List.length o1 = List.length h1 ->
  exists s,
    new_step (len calls) = Some s /\
    fetch_outputs decode_data aggregate (S (S fuel)) calls st =
    (Ok (map (decode_call decode_data) (combine calls (o1 ++ o2))),
     {| st_batcher := {| step := s |}; st_world := w3;
        st_sent := st_sent st ++ [calls; h1; h2] |}).
Proof.
  intros h1 h2 Hpos Hstep Hfail Hgo Hans1 Hans2 Hlen1.
  pose proof (len_nonneg calls) as Hnn.
  assert (Hnew : exists s, new_step (len calls) = Some s).
  { unfold new_step. destruct (Z.geb_spec (len calls) 100); [|now eexists].
    destruct (round_mul_099_shrinks (n := len calls)) as (s & Hs & _); [lia|].
    now exists s. }
  destruct Hnew as [s Hs]. exists s. split; [exact Hs|].
  assert (Hhalf : len calls / 2 < step (st_batcher st)).
  { destruct (Z.eq_dec (len calls) 0) as [E|E]; [rewrite E; cbn; lia|].
    assert (len calls / 2 < len calls) by (apply Z.div_lt; lia). lia. }
  set (fuel' := S fuel).
  rewrite (fetch_outputs_retry decode_data aggregate fuel' calls st Hfail Hgo).
  rewrite (@rebatch_shrink _ (S fuel') (st_batcher st) calls s Hhalf
             (proj1 Hstep) Hs).
  cbv beta iota zeta. unfold halves. fold h1 h2. subst fuel'.
  rewrite gather_cons.
  rewrite (@fetch_outputs_answered _ _ _ decode_data _ aggregate fuel h1
             {| st_batcher := {| step := s |}; st_world := w1;
                st_sent := st_sent st ++ [calls] |} o1 w2 Hans1).
  cbn [st_batcher st_world st_sent]. rewrite gather_cons.
  rewrite (@fetch_outputs_answered _ _ _ decode_data _ aggregate fuel h2
             {| st_batcher := {| step := s |}; st_world := w2;
                st_sent := (st_sent st ++ [calls]) ++ [h1] |} o2 w3 Hans2).
  cbn [gather flatten List.concat st_batcher st_world st_sent].
  rewrite app_nil_r, <- map_app, <- combine_app by assumption.
  unfold h1, h2. rewrite firstn_skipn, <- !app_assoc. reflexivity.
Qed.

(** X7: a new [Multicall] on at most 10001 calls has one batch; when
    the request for it fails with an error that is not to be retried,
    the run raises that error after this one request. *)
Theorem run_fatal (fuel : nat) calls (w w' : World) (e : exn) :
  let first := firstn (Z.to_nat 10000) calls in
  len calls <= 10001 ->
  (List.length calls < fuel)%nat ->
  aggregate w first = (inl e, w') ->
  ~ (marked e /\ ~ single_out_of_gas e (len first)) ->
  run decode_data aggregate fuel calls w =
  (Raise e,
   {| st_batcher := batcher_init; st_world := w'; st_sent := [first] |}).
Proof.
  intros first Hlen Hfuel Hfail Hfatal.
  destruct (@batch_calls_chunked _ calls 10000 fuel ltac:(lia) Hfuel)
    as (batches & Hrun & Hch).
  assert (Hhead : batches = [first]).
  { inversion Hch as [rest Hle | rest bs Hlt]; subst; [reflexivity | lia]. }
  subst batches.
  unfold run, coroutine.
  change (step (st_batcher (multicall_init V Signature w))) with 10000.
  rewrite Hrun, gather_cons.
  destruct fuel as [|fuel]; [lia|].
  rewrite (@fetch_outputs_fatal _ _ _ decode_data _ aggregate fuel first
             (multicall_init V Signature w) e e w' Hfail
             (raise_or_proceed_raises Hfatal)).
  reflexivity.
Qed.

(** X10: at [step <= 0], a batch of two or more calls whose request
    fails with an error to retry is never finished: [rebatch] goes to
    [batch_calls], whose loop does not exit. *)
Theorem fetch_outputs_stuck_at_step_0 calls st (e : exn) (w : World) :
  step (st_batcher st) <= 0 ->
  2 <= len calls ->
  aggregate (st_world st) calls = (inl e, w) ->
  _raise_or_proceed e (len calls) = Ok tt ->
  forall fuel : nat,
    fst (fetch_outputs decode_data aggregate fuel calls st) = OutOfFuel.
Proof.
  intros Hstep Hlen Hfail Hgo fuel. destruct fuel as [|fuel]; [reflexivity|].
  rewrite (fetch_outputs_retry decode_data aggregate fuel calls st Hfail Hgo).
  assert (Hhalf : 1 <= len calls / 2) by (apply Z.div_le_lower_bound; lia).
  rewrite rebatch_keep by lia.
  unfold batch_calls. rewrite batch_loop_never by lia. reflexivity.
Qed.
End EngineMore.

Section EngineInvariants.
Variables V Signature Decodable : Type.
Variable decode_data : Signature -> Decodable -> option (list (pyval V)).
Variable World : Type.
Variable aggregate :
  World -> list (Call V Signature) -> (exn + list (bool * Decodable)) * World.

Implicit Types calls : list (Call V Signature).
Implicit Types st : state V Signature World.

(** What holds from a state to the state after each coroutine holds
    from a state to the state after [gather]. *)
Lemma gather_preserves {R : Type}
      (P : state V Signature World -> state V Signature World -> Prop)
      (f : list (Call V Signature) -> state V Signature World
           -> outcome R * state V Signature World) :
  (forall st, P st st) ->
  (forall st1 st2 st3, P st1 st2 -> P st2 st3 -> P st1 st3) ->
  (forall batch st, P st (snd (f batch st))) ->
  forall batches st, P st (snd (gather f batches st)).
Proof.
  intros Hrefl Htrans Hf batches.
  induction batches as [|batch batches IH]; intros st; [apply Hrefl|].
  rewrite gather_cons. pose proof (Hf batch st) as H1.
  destruct (f batch st) as [r st1]. cbn [snd] in H1.
  destruct r as [res|e|]; try exact H1.
  pose proof (IH st1) as H2.
  destruct (gather f batches st1) as [rs st2]. cbn [snd] in *.
  exact (Htrans _ _ _ H1 H2).
Qed.

Lemma fetch_outputs_step (fuel : nat) :
  forall calls st,
    step_kept_or_lowered st (snd (fetch_outputs decode_data aggregate fuel calls st)).
Proof.
  induction fuel as [|fuel IH]; intros calls st Hst; [cbn; lia|].
  cbn [fetch_outputs st_batcher st_world st_sent].
  destruct (aggregate (st_world st) calls) as [[e|outputs] w]; [|cbn; lia].
  destruct (_raise_or_proceed e (len calls)) as [[]|e'|]; try (cbn; lia).
  pose proof (@rebatch_step _ (S fuel) (st_batcher st) calls Hst) as Hre.
  destruct (rebatch (S fuel) (st_batcher st) calls) as [sub b]. cbn [snd] in Hre.
  assert (Hb : step b <= step (st_batcher st)) by (destruct Hre; [subst|]; lia).
  destruct sub as [sub|e'|]; try (cbn; lia).
  pose proof (@gather_preserves _ (@step_kept_or_lowered V Signature World)
                (fetch_outputs decode_data aggregate fuel)) as Hg.
  specialize (Hg ltac:(intros s _; lia)).
  specialize (Hg ltac:(unfold step_kept_or_lowered; intros; lia) IH sub
                {| st_batcher := b; st_world := w;
                   st_sent := st_sent st ++ [calls] |}).
  destruct (gather _ sub _) as [rs st3]. cbn [snd] in *.
  unfold step_kept_or_lowered in Hg. cbn [st_batcher] in Hg. lia.
Qed.

(** X9: a whole run never raises [step]: from a step of at most 10000,
    the step after [fetch_outputs], and after [coroutine], is at most
    the step before. *)
Theorem engine_step_never_raised (fuel : nat) calls st :
  step (st_batcher st) <= 10000 ->
  step (st_batcher (snd (fetch_outputs decode_data aggregate fuel calls st)))
  <= step (st_batcher st) /\
  step (st_batcher (snd (coroutine decode_data aggregate fuel calls st)))
  <= step (st_batcher st).
Proof.
  intros Hst. split; [now apply fetch_outputs_step|].
  unfold coroutine.
  destruct (batch_calls fuel calls (step (st_batcher st))) as [batches|];
    [|cbn; lia].
  pose proof (@gather_preserves _ (@step_kept_or_lowered V Signature World)
                (fetch_outputs decode_data aggregate fuel)
                ltac:(intros s _; lia)
                ltac:(unfold step_kept_or_lowered; intros; lia)
                (fetch_outputs_step fuel) batches st Hst) as Hg.
  destruct (gather _ batches st) as [rs st']. exact Hg.
Qed.

(** The results of the batches gathered are no more than their calls,
    when this holds of each coroutine. *)
Lemma gather_total
      (f : list (Call V Signature) -> state V Signature World
           -> outcome (list (pyval V)) * state V Signature World) :
  (forall batch st r st', f batch st = (Ok r, st') -> len r <= len batch) ->
  forall batches st rs st',
    gather f batches st = (Ok rs, st') ->
    len (List.concat rs) <= len (List.concat batches).
Proof.
  intros Hf batches. induction batches as [|batch batches IH];
    intros st rs st' Hrun.
  - cbn in Hrun. inversion Hrun. cbn. lia.
  - rewrite gather_cons in Hrun.
    destruct (f batch st) as [r st1] eqn:E1.
    destruct r as [res|e|]; try discriminate.
    destruct (gather f batches st1) as [rs' st2] eqn:E2.
    destruct rs' as [l|e|]; try discriminate.
    inversion Hrun; subst. cbn [List.concat]. rewrite !len_app.
    pose proof (Hf _ _ _ _ E1). pose proof (IH _ _ _ E2). lia.
Qed.

Lemma rebatch_total (fuel : nat) (b b' : batcher) calls sub :
  rebatch fuel b calls = (Ok sub, b') ->
  len (List.concat sub) <= len calls.
Proof.
  unfold rebatch. intros H.
  assert (Hhalves : forall c1 c2, split_calls calls = (c1, c2) ->
                                  len (List.concat [c1; c2]) = len calls).
  { intros c1 c2 E. pose proof (split_calls_sizes calls) as (_ & _ & Hcat).
    rewrite E in Hcat. cbn [fst snd] in Hcat.
    cbn [List.concat]. now rewrite app_nil_r, Hcat. }
  destruct (step b <=? len calls / 2).
  - destruct (batch_calls fuel calls (step b)) as [batches|] eqn:E;
      [|discriminate].
    inversion H; subst. eapply batch_calls_total. exact E.
  - destruct (split_calls calls) as [c1 c2] eqn:E.
    specialize (Hhalves c1 c2 eq_refl).
    destruct (step b >=? len calls).
    + destruct (new_step (len calls)); [|discriminate].
      inversion H; subst. lia.
    + inversion H; subst. lia.
Qed.

Lemma fetch_outputs_total (fuel : nat) :
  forall calls st results st',
    fetch_outputs decode_data aggregate fuel calls st = (Ok results, st') ->
    len results <= len calls.
Proof.
  induction fuel as [|fuel IH]; intros calls st results st' Hrun;
    [discriminate|].
  cbn [fetch_outputs] in Hrun.
  destruct (aggregate (st_world st) calls) as [[e|outputs] w].
  - destruct (_raise_or_proceed e (len calls)) as [[]|e'|]; try discriminate.
    destruct (rebatch (S fuel) _ calls) as [sub b] eqn:Ere.
    destruct sub as [sub|e'|]; try discriminate.
    destruct (gather _ sub _) as [rs st3] eqn:Eg.
    destruct rs as [l|e'|]; try discriminate.
    inversion Hrun; subst.
    pose proof (gather_total _ IH _ _ Eg). pose proof (rebatch_total _ _ _ Ere).
    lia.
  - inversion Hrun; subst. unfold len.
    rewrite length_map, length_combine. lia.
Qed.

(** X8: [fetch_outputs] never returns more results than the batch has
    calls, and [coroutine] never more than it was given calls, whatever
    the node answers and however batches are retried. *)
Theorem results_never_exceed_calls (fuel : nat) calls st results st' :
  (fetch_outputs decode_data aggregate fuel calls st = (Ok results, st') ->
   len results <= len calls) /\
  (coroutine decode_data aggregate fuel calls st = (Ok results, st') ->
   len results <= len calls).
Proof.
  split; [apply fetch_outputs_total|].
  unfold coroutine. intros Hrun.
  destruct (batch_calls fuel calls _) as [batches|] eqn:Eb; [|discriminate].
  destruct (gather _ batches st) as [rs st3] eqn:Eg.
  destruct rs as [l|e'|]; try discriminate.
  inversion Hrun; subst.
  pose proof (gather_total _ (fetch_outputs_total fuel) _ _ Eg).
  pose proof (batch_calls_total _ _ _ Eb). lia.
Qed.
End EngineInvariants.

(** ** The engine on the scripted node, again *)

Ltac le_by_computation :=
  repeat match goal with |- _ /\ _ => split end;
  first [apply Z.leb_le | apply Nat.ltb_lt]; vm_compute; reflexivity.

Lemma run_answered_witness :
  let calls := numbered_calls 3 in
  len calls <= 10000 /\
  demo_aggregate [] calls = (inr (echo calls), []) /\
  List.length (echo calls) = List.length calls /\
  run demo_decode_data demo_aggregate 1 calls [] =
  (Ok (map (decode_call demo_decode_data) (combine calls (echo calls))),
   {| st_batcher := batcher_init; st_world := []; st_sent := [calls] |}) /\
  List.length (map (decode_call demo_decode_data) (combine calls (echo calls)))
  = List.length calls.
Proof.
  intros calls. split; [le_by_computation|]. split; [reflexivity|]. split; [reflexivity|].
  apply (@run_answered Z nat Z demo_decode_data _ demo_aggregate 0 calls [] []
           (echo calls)); [le_by_computation | reflexivity | reflexivity].
Defined.

(** 250 calls, the first request failing with "payload too large": two
    halves of 125 calls, the step lowered to 248, and the 250 results. *)
Lemma fetch_outputs_one_retry_witness :
  let calls := numbered_calls 250 in
  let st := multicall_init Z nat [Some "413 Payload Too Large"%string] in
  let h1 := firstn (Z.to_nat (len calls / 2)) calls in
  let h2 := skipn (Z.to_nat (len calls / 2)) calls in
  len h1 = 125 /\ len h2 = 125 /\
  exists s,
    new_step (len calls) = Some s /\ s = 248 /\
    fetch_outputs demo_decode_data demo_aggregate 2 calls st =
    (Ok (map (decode_call demo_decode_data) (combine calls (echo h1 ++ echo h2))),
     {| st_batcher := {| step := s |}; st_world := [];
        st_sent := st_sent st ++ [calls; h1; h2] |}).
Proof.
  intros calls st h1 h2. split; [reflexivity|]. split; [reflexivity|].
  destruct (@fetch_outputs_one_retry Z nat Z demo_decode_data _ demo_aggregate
              0 calls st (Exception "413 Payload Too Large") [] [] []
              (echo h1) (echo h2)) as (s & Hs & Hrun).
  - le_by_computation.
  - le_by_computation.
  - reflexivity.
  - reflexivity.
  - reflexivity.
  - reflexivity.
  - reflexivity.
  - exists s. split; [exact Hs|]. split; [|exact Hrun].
    vm_compute in Hs. now inversion Hs.
Defined.

Lemma run_fatal_witness :
  let calls := numbered_calls 3 in
  let e := Exception "execution reverted" in
  len calls <= 10001 /\
  (List.length calls < 4)%nat /\
  demo_aggregate [Some "execution reverted"%string] (firstn (Z.to_nat 10000) calls)
  = (inl e, []) /\
  ~ (marked e /\ ~ single_out_of_gas e (len (firstn (Z.to_nat 10000) calls))) /\
  run demo_decode_data demo_aggregate 4 calls [Some "execution reverted"%string] =
  (Raise e,
   {| st_batcher := batcher_init; st_world := [];
      st_sent := [firstn (Z.to_nat 10000) calls] |}).
Proof.
  intros calls e.
  assert (Hfatal : ~ (marked e /\
                      ~ single_out_of_gas e (len (firstn (Z.to_nat 10000) calls)))).
  { intros H. apply raise_or_proceed_iff in H. vm_compute in H. discriminate. }
  split; [le_by_computation|].
  split; [le_by_computation|]. split; [reflexivity|]. split; [exact Hfatal|].
  apply (@run_fatal Z nat Z demo_decode_data _ demo_aggregate 4 calls
           [Some "execution reverted"%string] [] e);
    [le_by_computation | le_by_computation | reflexivity | exact Hfatal].
Defined.

Lemma engine_step_never_raised_witness :
  let calls := numbered_calls 250 in
  let st := multicall_init Z nat [Some "413 Payload Too Large"%string] in
  step (st_batcher st) <= 10000 /\
  step (st_batcher (snd (fetch_outputs demo_decode_data demo_aggregate 2 calls st)))
  <= step (st_batcher st) /\
  step (st_batcher (snd (coroutine demo_decode_data demo_aggregate 2 calls st)))
  <= step (st_batcher st).
Proof.
  intros calls st. split; [le_by_computation|].
  apply (@engine_step_never_raised Z nat Z demo_decode_data _ demo_aggregate
           2 calls st). le_by_computation.
Defined.

Lemma fetch_outputs_stuck_at_step_0_witness :
  let calls := numbered_calls 2 in
  let st := {| st_batcher := {| step := 0 |};
               st_world := [Some "timeout"%string];
               st_sent := @nil (list (Call Z nat)) |} in
  step (st_batcher st) <= 0 /\ 2 <= len calls /\
  demo_aggregate (st_world st) calls = (inl (Exception "timeout"), []) /\
  _raise_or_proceed (Exception "timeout") (len calls) = Ok tt /\
  forall fuel : nat,
    fst (fetch_outputs demo_decode_data demo_aggregate fuel calls st) = OutOfFuel.
Proof.
  intros calls st. split; [le_by_computation|]. split; [le_by_computation|].
  split; [reflexivity|]. split; [reflexivity|].
  apply (@fetch_outputs_stuck_at_step_0 Z nat Z demo_decode_data _ demo_aggregate
           calls st (Exception "timeout") []);
    [le_by_computation | le_by_computation | reflexivity | reflexivity].
Defined.

(** * Further properties of [decode_output] *)

Section DecodeMore.
Variables V Signature Decodable : Type.
Variable decode_data : Signature -> Decodable -> option (list (pyval V)).

Implicit Types d acc : list (string * pyval V).
Implicit Types items : list ((string * option (handler V)) * pyval V).

Lemma build_dict_cons (apply_handler : handler V -> pyval V -> outcome (pyval V))
      item items acc :
  build_dict apply_handler (item :: items) acc =
  match item_bound apply_handler item with
  | Ok v => build_dict apply_handler items (dict_set acc (item_name item) v)
  | Raise e => Raise e
  | OutOfFuel => OutOfFuel
  end.
Proof. destruct item as [[name h] value]. reflexivity. Qed.

(** A comprehension over items of distinct names, new to the dict built
    so far, appends one key per item, in order. *)
Lemma build_dict_zip (apply_handler : handler V -> pyval V -> outcome (pyval V)) :
  forall items d acc,
    NoDup (map item_name items) ->
    (forall k, In k (map item_name items) -> ~ In k (map fst acc)) ->
    Forall2 (bound_by apply_handler) items d ->
    build_dict apply_handler items acc = Ok (PyDict (acc ++ d)).
Proof.
  induction items as [|item items IH]; intros d acc Hnd Hfresh Hd.
  - inversion Hd. cbn. now rewrite app_nil_r.
  - inversion Hd as [|? kv ? d' [Hk Hv] Hd']; subst.
    inversion Hnd as [|? ? Hname Hnd']; subst.
    rewrite build_dict_cons, Hv.
    rewrite dict_set_fresh by (apply Hfresh; now left).
    rewrite (IH d' (acc ++ [(item_name item, snd kv)])); try assumption.
    + rewrite <- app_assoc. cbn. destruct kv as [k v]. cbn in *. now subst.
    + intros k Hin. rewrite map_app, in_app_iff. cbn. intros [H | [<- | []]].
      * apply (Hfresh k); [now right | exact H].
      * contradiction.
Qed.

Lemma combine_names (r : returns_spec V) (values : list (pyval V)) :
  map item_name (combine r values) = firstn (List.length values) (map fst r).
Proof.
  revert values. induction r as [|entry r IH]; intros [|v values];
    try reflexivity.
  cbn. f_equal. apply IH.
Qed.

Lemma in_firstn {A : Type} (x : A) (l : list A) :
  forall n : nat, In x (firstn n l) -> In x l.
Proof.
  induction l as [|y l IH]; intros [|n] H; cbn in *; try contradiction.
  destruct H as [H|H]; [now left | right; now apply (IH n)].
Qed.

Lemma NoDup_firstn {A : Type} (n : nat) (l : list A) :
  NoDup l -> NoDup (firstn n l).
Proof.
  revert n. induction l as [|x l IH]; intros [|n] H; cbn; try constructor.
  - inversion H; subst. intros Hin. apply in_firstn in Hin. contradiction.
  - inversion H; subst. now apply IH.
Qed.

(** X12: when the output decodes to [decoded] and [returns] has at
    least one name, all distinct, the result is the dict that binds the
    names, in order, to the values in order, each through its handler:
    [handler(value)] when [success] is not given, [handler(True, value)]
    when it is true, the value itself without a handler. Names without a
    value and values without a name are left out. *)
Theorem decode_output_zips
        (output : Decodable) (sig : Signature) (r : returns_spec V)
        (success : option bool) (decoded : list (pyval V))
        (d : list (string * pyval V)) :
  success = None \/ success = Some true ->
  decode_data sig output = Some decoded ->
  r <> [] ->
  NoDup (map fst r) ->
  Forall2 (bound_by (handler_applied success)) (combine r decoded) d ->
  decode_output decode_data output sig (Some r) success = Ok (PyDict d) /\
  map fst d = firstn (List.length decoded) (map fst r) /\
  List.length d = Nat.min (List.length r) (List.length decoded).
Proof.
  intros Hsucc Hdec Hne Hnd Hd.
  assert (Hkeys : map fst d = map item_name (combine r decoded)).
  { clear - Hd. induction Hd as [|item kv items d' [Hk _] _ IH]; [reflexivity|].
    cbn. now rewrite Hk, IH. }
  split; [|split].
  - unfold decode_output. destruct r as [|entry r']; [congruence|].
    assert (E : build_dict (handler_applied success)
                           (combine (entry :: r') decoded) []
                = Ok (PyDict ([] ++ d))).
    { apply build_dict_zip; [|intros k _ []|exact Hd].
      rewrite combine_names. now apply NoDup_firstn. }
    destruct Hsucc as [-> | ->]; rewrite Hdec; exact E.
  - now rewrite Hkeys, combine_names.
  - rewrite <- (length_map fst d), Hkeys, length_map. apply length_combine.
Qed.

Lemma Forall2_nulls (P : string * option (handler V) -> pyval V -> string * pyval V -> Prop)
      (r : returns_spec V) d :
  Forall2 (fun entry kv => P entry PyNone kv) r d ->
  Forall2 (fun item kv => P (fst item) (snd item) kv)
          (combine r (repeat PyNone (List.length r))) d.
Proof.
  induction 1 as [|entry kv r d H _ IH]; [constructor|].
  cbn. constructor; assumption.
Qed.

(** X13: an output that does not decode never makes [decode_output]
    raise by itself. With [success] true the result is the one for
    [success] false: the handlers get [(False, None)]. With [success]
    not given, the result is [None] when there is no [returns], and else
    the dict of the names, each handler being called with the single
    argument [None]. *)
Theorem decode_output_undecodable
        (output : Decodable) (sig : Signature) :
  decode_data sig output = None ->
  (forall returns,
      decode_output decode_data output sig returns (Some true)
      = decode_output decode_data output sig returns (Some false)) /\
  decode_output decode_data output sig None None = Ok PyNone /\
  (forall (r : returns_spec V) d,
      r <> [] ->
      NoDup (map fst r) ->
      Forall2 (fun entry kv =>
                 fst kv = fst entry /\
                 match snd entry with
                 | Some h => call1 h PyNone = Ok (snd kv)
                 | None => snd kv = PyNone
                 end) r d ->
      decode_output decode_data output sig (Some r) None = Ok (PyDict d)).
Proof.
  intros Hdec. split; [|split].
  - intros returns. unfold decode_output. now rewrite Hdec.
  - unfold decode_output. now rewrite Hdec.
  - intros r d Hne Hnd Hd. unfold decode_output. rewrite Hdec.
    destruct r as [|entry r']; [congruence|].
    change (null_slots (Some (entry :: r'))) with (List.length (entry :: r')).
    change d with ([] ++ d). apply build_dict_zip.
    + rewrite combine_names. now apply NoDup_firstn.
    + intros k _ [].
    + apply (Forall2_nulls
               (fun entry v kv =>
                  fst kv = fst entry /\
                  match snd entry with
                  | Some h => call1 h v
                  | None => Ok v
                  end = Ok (snd kv))).
      eapply Forall2_impl; [|exact Hd].
      intros entry0 kv [Hk Hv]. split; [exact Hk|].
      destruct (snd entry0); [exact Hv | now rewrite Hv].
Qed.
End DecodeMore.

Section DecodeRaises.
Variables V Signature Decodable : Type.
Variable decode_data : Signature -> Decodable -> option (list (pyval V)).

Implicit Types d acc : list (string * pyval V).
Implicit Types items : list ((string * option (handler V)) * pyval V).

Lemma build_dict_raise (apply_handler : handler V -> pyval V -> outcome (pyval V)) :
  forall items acc (e : exn),
    build_dict apply_handler items acc = Raise e ->
    exists name h value,
      In ((name, Some h), value) items /\ apply_handler h value = Raise e.
Proof.
  induction items as [|[[name h] value] items IH]; intros acc e Hrun;
    [discriminate|].
  cbn [build_dict] in Hrun. destruct h as [h|].
  - destruct (apply_handler h value) as [v|e'|] eqn:E.
    + destruct (IH _ _ Hrun) as (n' & h' & v' & Hin & Hr).
      exists n', h', v'. split; [now right | exact Hr].
    + inversion Hrun; subst. exists name, h, value. split; [now left | exact E].
    + discriminate.
  - destruct (IH _ _ Hrun) as (n' & h' & v' & Hin & Hr).
    exists n', h', v'. split; [now right | exact Hr].
Qed.

(** X11: [decode_output] raises only in two ways: a handler of
    [returns] raises, and the error is the handler's; or there is no
    [returns] (or an empty one), [success] is not false, and the output
    decodes to no value at all, and the error is the [IndexError] of
    [decoded[0]]. *)
Theorem decode_output_raises
        (output : Decodable) (sig : Signature)
        (returns : option (returns_spec V)) (success : option bool) (e : exn) :
  decode_output decode_data output sig returns success = Raise e ->
  (exists r name h value,
      returns = Some r /\ In (name, Some h) r /\
      (call1 h value = Raise e \/ exists s, call2 h s value = Raise e)) \/
  ((returns = None \/ returns = Some []) /\
   decode_data sig output = Some [] /\
   success <> Some false /\
   e = index_error).
Proof.
  unfold decode_output. intros Hrun.
  set (nulls := repeat PyNone (null_slots returns)) in *.
  destruct (match success with
            | Some false => (success, nulls)
            | _ => match decode_data sig output with
                   | Some decoded => (success, decoded)
                   | None => (Some false, nulls)
                   end
            end) as [success_now decoded] eqn:Edec.
  assert (Hempty : decoded = [] ->
                   (returns = None \/ returns = Some []) ->
                   decode_data sig output = Some [] /\ success <> Some false).
  { intros -> Hret.
    assert (Hnulls : nulls <> []).
    { unfold nulls. destruct Hret as [-> | ->]; discriminate. }
    destruct success as [[|]|]; destruct (decode_data sig output) as [dec|];
      inversion Edec; subst; try congruence; split; congruence. }
  destruct returns as [[|entry r]|].
  - right. destruct (len decoded >? 1); [discriminate|].
    destruct decoded as [|d0 ?]; [|discriminate].
    inversion Hrun. destruct Hempty as [H1 H2]; auto.
  - left. apply build_dict_raise in Hrun.
    destruct Hrun as (name & h & value & Hin & Hr).
    exists (entry :: r), name, h, value. split; [reflexivity|].
    split; [eapply in_combine_l; exact Hin|].
    destruct success; [right; eexists; exact Hr | left; exact Hr].
  - right. destruct (len decoded >? 1); [discriminate|].
    destruct decoded as [|d0 ?]; [|discriminate].
    inversion Hrun. destruct Hempty as [H1 H2]; auto.
Qed.

Lemma dict_set_keys d (k : string) (v : pyval V) :
  forall k', In k' (map fst (dict_set d k v)) <-> k' = k \/ In k' (map fst d).
Proof.
  induction d as [|[k0 v0] d IH]; intros k'; cbn [dict_set].
  - cbn. intuition.
  - destruct (String.eqb_spec k0 k) as [->|Hne]; cbn; [intuition|].
    rewrite IH. intuition.
Qed.

Lemma dict_set_nodup d (k : string) (v : pyval V) :
  NoDup (map fst d) -> NoDup (map fst (dict_set d k v)).
Proof.
  induction d as [|[k0 v0] d IH]; intros Hnd; cbn [dict_set].
  - cbn. constructor; [intros [] | constructor].
  - inversion Hnd as [|? ? Hk0 Hnd']; subst.
    destruct (String.eqb_spec k0 k) as [->|Hne]; cbn.
    + now constructor.
    + constructor; [|now apply IH].
      rewrite dict_set_keys. intros [H|H]; [congruence | contradiction].
Qed.

Lemma dict_get_set d (k k' : string) (v : pyval V) :
  dict_get (dict_set d k v) k' = if String.eqb k k' then Some v else dict_get d k'.
Proof.
  induction d as [|[k0 v0] d IH]; cbn [dict_set dict_get].
  - reflexivity.
  - destruct (String.eqb_spec k0 k) as [->|Hne]; cbn [dict_get].
    + now destruct (String.eqb_spec k k').
    + rewrite IH. destruct (String.eqb_spec k0 k') as [->|Hne'];
        [|reflexivity].
      destruct (String.eqb_spec k k'); [congruence | reflexivity].
Qed.

(** What a comprehension that returns has built. *)
Lemma build_dict_inv (apply_handler : handler V -> pyval V -> outcome (pyval V)) :
  forall items acc res,
    build_dict apply_handler items acc = Ok res ->
    exists d,
      res = PyDict d /\
      (NoDup (map fst acc) -> NoDup (map fst d)) /\
      (forall k, In k (map fst d) <->
                 In k (map fst acc) \/ In k (map item_name items)) /\
      (forall k, ~ In k (map item_name items) -> dict_get d k = dict_get acc k) /\
      (forall before item after,
          items = before ++ item :: after ->
          ~ In (item_name item) (map item_name after) ->
          exists v, item_bound apply_handler item = Ok v /\
                    dict_get d (item_name item) = Some v).
Proof.
  induction items as [|item items IH]; intros acc res Hrun.
  - cbn in Hrun. inversion Hrun; subst. exists acc.
    split; [reflexivity|]. split; [auto|]. split; [cbn; intuition|].
    split; [reflexivity|].
    intros [|? ?] ? ? H; discriminate.
  - rewrite build_dict_cons in Hrun.
    destruct (item_bound apply_handler item) as [v|e|] eqn:Ev; try discriminate.
    destruct (IH _ _ Hrun) as (d & -> & Hnd & Hkeys & Hget & Hlast).
    exists d. split; [reflexivity|]. split; [|split; [|split]].
    + intros Hacc. apply Hnd. now apply dict_set_nodup.
    + intros k. rewrite Hkeys, dict_set_keys. cbn. intuition.
    + intros k Hk. cbn in Hk. rewrite Hget by intuition.
      rewrite dict_get_set. destruct (String.eqb_spec (item_name item) k);
        [intuition | reflexivity].
    + intros before item' after E Hfree.
      destruct before as [|b before]; cbn in E; inversion E; subst.
      * exists v. split; [exact Ev|].
        rewrite Hget by exact Hfree. rewrite dict_get_set.
        now rewrite String.eqb_refl.
      * apply (Hlast before item' after eq_refl Hfree).
Qed.

(** X14: the dict that [decode_output] returns with a [returns], whatever
    its names: no key occurs twice, every key is a name of [returns],
    and there are at most as many keys as names. When the output decodes,
    a name that occurs several times is bound to what its last
    occurrence, with the value at that place, gives. *)
Theorem decode_output_dict_keys
        (output : Decodable) (sig : Signature) (entry : string * option (handler V))
        (r : returns_spec V) (success : option bool) (res : pyval V) :
  decode_output decode_data output sig (Some (entry :: r)) success = Ok res ->
  exists d,
    res = PyDict d /\
    NoDup (map fst d) /\
    (forall k, In k (map fst d) -> In k (map fst (entry :: r))) /\
    (List.length d <= List.length (entry :: r))%nat /\
    (forall decoded before item after,
        success = None \/ success = Some true ->
        decode_data sig output = Some decoded ->
        combine (entry :: r) decoded = before ++ item :: after ->
        ~ In (item_name item) (map item_name after) ->
        exists v,
          item_bound (handler_applied success) item = Ok v /\
          dict_get d (item_name item) = Some v).
Proof.
  intros Hrun.
  assert (Hshape : exists apply_handler decoded',
             build_dict apply_handler (combine (entry :: r) decoded') [] = Ok res /\
             (forall decoded,
                 success = None \/ success = Some true ->
                 decode_data sig output = Some decoded ->
                 decoded' = decoded /\
                 apply_handler = handler_applied success)).
  { unfold decode_output in Hrun.
    destruct success as [[|]|]; destruct (decode_data sig output) as [dec|];
      (do 2 eexists; split; [exact Hrun|]);
      intros decoded [Hs|Hs] Hd; try discriminate;
      inversion Hd; subst; split; reflexivity. }
  destruct Hshape as (apply_handler & decoded' & Hbuild & Hsame).
  apply build_dict_inv in Hbuild.
  destruct Hbuild as (d & -> & Hnd & Hkeys & _ & Hlast).
  exists d. split; [reflexivity|].
  assert (Hnd' : NoDup (map fst d)) by (apply Hnd; constructor).
  assert (Hincl : forall k, In k (map fst d) -> In k (map fst (entry :: r))).
  { intros k Hk. apply Hkeys in Hk. destruct Hk as [[]|Hk].
    rewrite combine_names in Hk. now apply in_firstn in Hk. }
  split; [exact Hnd'|]. split; [exact Hincl|]. split.
  - rewrite <- (length_map fst d), <- (length_map fst (entry :: r)).
    apply NoDup_incl_length; assumption.
  - intros decoded before item after Hs Hd E Hfree.
    destruct (Hsame decoded Hs Hd) as [-> ->].
    exact (Hlast before item after E Hfree).
Qed.
End DecodeRaises.

(** ** [decode_output] with the demo signatures *)

Lemma decode_output_zips_witness :
  let r := [("x"%string, Some or_zero); ("y"%string, None); ("z"%string, None)] in
  let d := [("x"%string, PyAtom 7); ("y"%string, PyAtom 7)] in
  (Some true = None \/ Some true = Some true) /\
  demo_decode_data 2 7 = Some [PyAtom 7; PyAtom 7] /\
  r <> [] /\
  NoDup (map fst r) /\
  Forall2 (bound_by (handler_applied (Some true)))
          (combine r [PyAtom 7; PyAtom 7]) d /\
  decode_output demo_decode_data 7 2%nat (Some r) (Some true) = Ok (PyDict d) /\
  map fst d = firstn (List.length [PyAtom 7; PyAtom 7]) (map fst r) /\
  List.length d = Nat.min (List.length r) (List.length [PyAtom 7; PyAtom 7]).
Proof.
  intros r d.
  assert (Hnd : NoDup (map fst r))
    by (repeat constructor; cbn; intuition discriminate).
  assert (Hd : Forall2 (bound_by (handler_applied (Some true)))
                       (combine r [PyAtom 7; PyAtom 7]) d)
    by (repeat constructor).
  split; [now right|]. split; [reflexivity|]. split; [discriminate|].
  split; [exact Hnd|]. split; [exact Hd|].
  apply (@decode_output_zips Z nat Z demo_decode_data 7 2%nat r (Some true)
           [PyAtom 7; PyAtom 7] d);
    [now right | reflexivity | discriminate | exact Hnd | exact Hd].
Defined.

Lemma decode_output_undecodable_witness :
  demo_decode_data 1 (-1) = None /\
  (forall returns,
      decode_output demo_decode_data (-1) 1%nat returns (Some true)
      = decode_output demo_decode_data (-1) 1%nat returns (Some false)) /\
  decode_output demo_decode_data (-1) 1%nat None None = Ok PyNone /\
  (forall (r : returns_spec Z) d,
      r <> [] ->
      NoDup (map fst r) ->
      Forall2 (fun entry kv =>
                 fst kv = fst entry /\
                 match snd entry with
                 | Some h => call1 h PyNone = Ok (snd kv)
                 | None => snd kv = PyNone
                 end) r d ->
      decode_output demo_decode_data (-1) 1%nat (Some r) None = Ok (PyDict d)).
Proof.
  split; [reflexivity|].
  apply (@decode_output_undecodable Z nat Z demo_decode_data (-1) 1%nat).
  reflexivity.
Defined.

Lemma decode_output_raises_witness :
  let returns := Some [("x"%string, Some strict)] in
  let e := Exception "value is None" in
  decode_output demo_decode_data (-1) 1%nat returns (Some true) = Raise e /\
  ((exists r name h value,
       returns = Some r /\ In (name, Some h) r /\
       (call1 h value = Raise e \/ exists s, call2 h s value = Raise e)) \/
   ((returns = None \/ returns = Some []) /\
    demo_decode_data 1 (-1) = Some [] /\
    Some true <> Some false /\
    e = index_error)).
Proof.
  intros returns e. split; [reflexivity|].
  apply (@decode_output_raises Z nat Z demo_decode_data (-1) 1%nat returns
           (Some true) e).
  reflexivity.
Defined.

(** The name [x] twice: one key, bound to what the second entry gives. *)
Lemma decode_output_dict_keys_witness :
  let entry := ("x"%string, Some strict) in
  let r := [("x"%string, @None (handler Z))] in
  let res := PyDict [("x"%string, PyAtom 7)] in
  decode_output demo_decode_data 7 2%nat (Some (entry :: r)) (Some true) = Ok res /\
  exists d,
    res = PyDict d /\
    NoDup (map fst d) /\
    (forall k, In k (map fst d) -> In k (map fst (entry :: r))) /\
    (List.length d <= List.length (entry :: r))%nat /\
    (forall decoded before item after,
        Some true = None \/ Some true = Some true ->
        demo_decode_data 2 7 = Some decoded ->
        combine (entry :: r) decoded = before ++ item :: after ->
        ~ In (item_name item) (map item_name after) ->
        exists v,
          item_bound (handler_applied (Some true)) item = Ok v /\
          dict_get d (item_name item) = Some v).
Proof.
  intros entry r res. split; [reflexivity|].
  apply (@decode_output_dict_keys Z nat Z demo_decode_data 7 2%nat entry r
           (Some true) res).
  reflexivity.
Defined.

(** * The single-call path and the aggregate request *)

Section PrepArgsFacts.
Variables Signature Bytes : Type.
Variable encode_data :
  Signature -> option (list (pyval (atom Bytes))) -> outcome Bytes.

(** X15: when the arguments encode, [prep_args] returns the call dict
    followed by the other positional arguments. The dict has ["to"] and
    ["data"]; ["from"] exactly when [origin] is a non-empty string;
    ["gas"] exactly when [gas_limit] is an integer other than 0; no key
    twice. Without override code the rest is the block, if one is given
    (block 0 too). With override code the rest is always a block, the
    one given or ["latest"], then the override for the target. *)
Theorem prep_args_shape
        (target : string) (sig : Signature)
        (args : option (list (pyval (atom Bytes))))
        (block : option Z) (origin : option string) (gas : option Z)
        (code : option string) (calldata : Bytes) :
  encode_data sig args = Ok calldata ->
  exists call_dict rest,
    prep_args encode_data target sig args block origin gas code
    = Ok (PyDict call_dict :: rest) /\
    NoDup (map fst call_dict) /\
    dict_get call_dict "to" = Some (PyAtom (AStr target)) /\
    dict_get call_dict "data" = Some (PyAtom (ABytes calldata)) /\
    dict_get call_dict "from"
    = (if truthy_str origin
       then option_map (fun o => PyAtom (AStr o)) origin else None) /\
    dict_get call_dict "gas"
    = (if truthy_int gas
       then option_map (fun g => PyAtom (AInt g)) gas else None) /\
    (truthy_str code = false ->
     rest = match block with
            | Some b => [PyAtom (AInt b)]
            | None => []
            end) /\
    (forall c, code = Some c -> truthy_str code = true ->
     rest = [ match block with
              | Some b => PyAtom (AInt b)
              | None => PyAtom (AStr "latest")
              end;
              PyDict [(target, PyDict [("code"%string, PyAtom (AStr c))])] ]).
Proof.
  intros Henc. unfold prep_args. rewrite Henc.
  do 2 eexists. split; [reflexivity|].
  assert (Hnd2 : NoDup ["to"%string; "data"%string])
    by (repeat constructor; cbn; intuition discriminate).
  assert (Hnd3f : NoDup ["to"%string; "data"%string; "from"%string])
    by (repeat constructor; cbn; intuition discriminate).
  assert (Hnd3g : NoDup ["to"%string; "data"%string; "gas"%string])
    by (repeat constructor; cbn; intuition discriminate).
  assert (Hnd4 : NoDup ["to"%string; "data"%string; "from"%string; "gas"%string])
    by (repeat constructor; cbn; intuition discriminate).
  destruct origin as [[|a o]|]; destruct gas as [g|];
    try (destruct (Z.eqb_spec g 0) as [->|Hg]);
    cbn [truthy_str truthy_int negb option_map];
    try (replace (g =? 0) with false by (symmetry; now apply Z.eqb_neq));
    cbn [negb dict_set dict_get String.eqb Ascii.eqb Bool.eqb map fst];
    (split; [assumption|]); repeat (split; [reflexivity|]);
    (split;
     [ intros Hc; destruct code as [[|c0 c]|]; try discriminate;
       destruct block; reflexivity
     | intros c -> Hc; destruct c; [discriminate|]; destruct block; reflexivity ]).
Qed.
End PrepArgsFacts.

Section SingleCallFacts.
Variables Signature Decodable Bytes : Type.
Variable decode_data :
  Signature -> Decodable -> option (list (pyval (atom Bytes))).
Variable encode_data :
  Signature -> option (list (pyval (atom Bytes))) -> outcome Bytes.
Variable get_signature : string -> Signature.
Variable W3 : Type.
Variable eth_chain_id : W3 -> Z.
Variable default_w3 : W3.
Variable get_async_w3 : W3 -> W3.
Variable to_checksum_address : string -> string.
Variable NO_STATE_OVERRIDE : list Z.
Variable World : Type.
Variable eth_call :
  W3 -> World -> request Bytes -> (exn + Decodable) * World.

Implicit Types slots : call_slots W3.
Implicit Types nd : node Bytes W3 World.

(** X16: a [Call] with override code, on a chain that does not support
    state override: [coroutine] raises the [ValueError], naming the
    chain, and makes no request; [__call__] has no such check and makes
    the request, override included. *)
Theorem coroutine_unsupported_override
        (call : Call (atom Bytes) Signature) slots
        (call_args : option (list (pyval (atom Bytes)))) (_w3 : option W3)
        (block : option Z) nd :
  let handle := pick_w3 default_w3 slots _w3 in
  truthy_str (state_override_code slots) = true ->
  state_override_supported eth_chain_id NO_STATE_OVERRIDE handle = false ->
  call_coroutine decode_data encode_data eth_chain_id default_w3 get_async_w3
                 NO_STATE_OVERRIDE eth_call call slots call_args _w3 block nd
  = (Raise (Exception ("State override is not supported on chain "
                       ++ str_of_int (eth_chain_id handle) ++ ".")), nd) /\
  (forall prepared,
      prep_args encode_data (target call) (signature call)
                (or_list call_args (args call)) (or_int block (block_id slots))
                (origin slots) (gas_limit slots) (state_override_code slots)
      = Ok prepared ->
      nd_calls (snd (__call__ decode_data encode_data default_w3 eth_call
                              call slots call_args _w3 block nd))
      = nd_calls nd ++ [(handle, prepared)] /\
      exists code,
        state_override_code slots = Some code /\
        last prepared PyNone
        = PyDict [(target call, PyDict [("code"%string, PyAtom (AStr code))])]).
Proof.
  intros handle Hcode Hsup. split.
  - unfold call_coroutine. fold handle. now rewrite Hcode, Hsup.
  - intros prepared Hprep. split.
    + unfold __call__, call_node. fold handle. rewrite Hprep.
      destruct (eth_call handle (nd_world nd) prepared) as [[e|output] world];
        reflexivity.
    + destruct (state_override_code slots) as [[|c0 c]|] eqn:Ec;
        try discriminate.
      exists (String c0 c). split; [reflexivity|].
      unfold prep_args in Hprep.
      destruct (encode_data _ _) as [calldata|e|]; try discriminate.
      inversion Hprep; subst. cbn [truthy_str].
      destruct (or_int block (block_id slots)); reflexivity.
Qed.

(** X17: arguments given at call time that are dropped. A block 0 given
    to [coroutine] or [__call__] counts as no block; an empty list of
    arguments counts as no arguments; a handle given at call time is
    not used when the [Call] has its own. A block 0 set on the [Call]
    itself is kept: it is the second positional argument of the request. *)
Theorem call_time_arguments
        (call : Call (atom Bytes) Signature) slots
        (call_args : option (list (pyval (atom Bytes)))) (_w3 : option W3)
        (block : option Z) nd :
  let run_coroutine :=
    call_coroutine decode_data encode_data eth_chain_id default_w3 get_async_w3
                   NO_STATE_OVERRIDE eth_call call slots in
  let run_call := __call__ decode_data encode_data default_w3 eth_call call slots in
  (run_coroutine call_args _w3 (Some 0) nd = run_coroutine call_args _w3 None nd /\
   run_call call_args _w3 (Some 0) nd = run_call call_args _w3 None nd) /\
  (run_coroutine (Some []) _w3 block nd = run_coroutine None _w3 block nd /\
   run_call (Some []) _w3 block nd = run_call None _w3 block nd) /\
  (forall handle,
      w3 slots = Some handle ->
      run_coroutine call_args _w3 block nd = run_coroutine call_args None block nd /\
      run_call call_args _w3 block nd = run_call call_args None block nd) /\
  (forall prepared,
      block_id slots = Some 0 ->
      prep_args encode_data (target call) (signature call)
                (or_list call_args (args call)) (or_int None (block_id slots))
                (origin slots) (gas_limit slots) (state_override_code slots)
      = Ok prepared ->
      nth_error prepared 1 = Some (PyAtom (AInt 0))).
Proof.
  intros run_coroutine run_call.
  split; [split; reflexivity|]. split; [split; reflexivity|]. split.
  - intros handle Hw. split.
    + unfold run_coroutine, call_coroutine, pick_w3. now rewrite Hw.
    + unfold run_call, __call__, pick_w3. now rewrite Hw.
  - intros prepared Hblock Hprep. rewrite Hblock in Hprep.
    unfold prep_args in Hprep. cbn [or_int truthy_int] in Hprep.
    destruct (encode_data _ _) as [calldata|e|]; try discriminate.
    inversion Hprep; subst.
    destruct (state_override_code slots) as [[|c0 c]|]; reflexivity.
Qed.
End SingleCallFacts.

Section DispatchFacts.
Variables Signature Decodable Bytes : Type.
Variable decode_data :
  Signature -> Decodable -> option (list (pyval (atom Bytes))).
Variable encode_data :
  Signature -> option (list (pyval (atom Bytes))) -> outcome Bytes.
Variable get_signature : string -> Signature.
Variable W3 : Type.
Variable eth_chain_id : W3 -> Z.
Variable default_w3 : W3.
Variable get_async_w3 : W3 -> W3.
Variable to_checksum_address : string -> string.
Variable NO_STATE_OVERRIDE : list Z.
Variable World : Type.
Variable eth_call :
  W3 -> World -> request Bytes -> (exn + Decodable) * World.

Implicit Types calls : list (Call (atom Bytes) Signature).
Implicit Types m : multicall W3.
Implicit Types nd : node Bytes W3 World.

Lemma encode_calls_pairs calls :
  forall pairs,
    encode_calls encode_data calls = Ok pairs ->
    Forall2 (fun call pair =>
               exists data,
                 encode_data (signature call) (args call) = Ok data /\
                 pair = PySeq [PyAtom (AStr (target call)); PyAtom (ABytes data)])
            calls pairs.
Proof.
  induction calls as [|call calls IH]; intros pairs H; cbn [encode_calls] in H.
  - inversion H. constructor.
  - destruct (encode_data (signature call) (args call)) as [data|e|] eqn:E;
      try discriminate.
    destruct (encode_calls encode_data calls) as [pairs'|e|]; try discriminate.
    inversion H; subst. constructor; [|now apply IH].
    now exists data.
Qed.

Lemma encode_calls_all calls :
  Forall (fun call => exists data,
              encode_data (signature call) (args call) = Ok data) calls ->
  exists pairs, encode_calls encode_data calls = Ok pairs.
Proof.
  induction 1 as [|call calls [data Hd] _ [pairs IH]]; [now exists []|].
  cbn [encode_calls]. rewrite Hd, IH. now eexists.
Qed.

Lemma encode_calls_first_error calls :
  forall before call after (e : exn),
    calls = before ++ call :: after ->
    Forall (fun c => exists data,
                encode_data (signature c) (args c) = Ok data) before ->
    encode_data (signature call) (args call) = Raise e ->
    encode_calls encode_data calls = Raise e.
Proof.
  intros before call after e -> Hok He.
  induction Hok as [|c before [data Hd] _ IH]; cbn [app encode_calls].
  - now rewrite He.
  - now rewrite Hd, IH.
Qed.

(** X19: [get_args] gives the flag [require_success] and one
    [[target, data]] pair per call, in the order of the calls, [data]
    being the encoded arguments of the call, when every call encodes;
    when one does not, it raises the error of the first that fails. *)
Theorem get_args_pairs m calls :
  (Forall (fun call => exists data,
               encode_data (signature call) (args call) = Ok data) calls ->
   exists pairs,
     get_args encode_data m calls
     = Ok [PyAtom (ABool (mc_require_success m)); PySeq pairs] /\
     List.length pairs = List.length calls /\
     Forall2 (fun call pair =>
                exists data,
                  encode_data (signature call) (args call) = Ok data /\
                  pair = PySeq [PyAtom (AStr (target call)); PyAtom (ABytes data)])
             calls pairs) /\
  (forall before call after (e : exn),
      calls = before ++ call :: after ->
      Forall (fun c => exists data,
                  encode_data (signature c) (args c) = Ok data) before ->
      encode_data (signature call) (args call) = Raise e ->
      get_args encode_data m calls = Raise e).
Proof.
  split.
  - intros Hall. destruct (encode_calls_all Hall) as [pairs Hp].
    exists pairs. unfold get_args. rewrite Hp. split; [reflexivity|].
    pose proof (encode_calls_pairs _ Hp) as H2.
    split; [symmetry; eapply Forall2_length; exact H2 | exact H2].
  - intros before call after e E Hok He. unfold get_args.
    now rewrite (@encode_calls_first_error calls before call after e E Hok He).
Qed.

(** X18: one dispatch of a batch, when the calls and the aggregate call
    encode: exactly one request is made, on the asynchronous handle of
    the [Multicall]; it is what [prep_args] makes of the checksummed
    contract address, the arguments of [get_args], the block of the
    [Multicall], no origin, its gas limit, and the bytecode as override
    code exactly when the chain supports state override. The
    [ValueError] of [Call.coroutine] does not occur, and the result is
    the decoding of what the node returns, or the node's error. *)
Theorem dispatch_request m calls nd
        (call_args : list (pyval (atom Bytes))) (calldata : Bytes) :
  let handle := get_async_w3 (mc_w3 m) in
  let sig := get_signature multicall_sig in
  let code := if state_override_supported eth_chain_id NO_STATE_OVERRIDE (mc_w3 m)
              then Some (mc_bytecode m) else None in
  get_args encode_data m calls = Ok call_args ->
  encode_data sig (Some call_args) = Ok calldata ->
  exists prepared,
    prep_args encode_data (to_checksum_address (mc_contract_address m)) sig
              (Some call_args) (mc_block_id m) None (Some (mc_gas_limit m)) code
    = Ok prepared /\
    nd_calls (snd (dispatch decode_data encode_data get_signature eth_chain_id
                            default_w3 get_async_w3 to_checksum_address
                            NO_STATE_OVERRIDE eth_call m calls nd))
    = nd_calls nd ++ [(handle, prepared)] /\
    fst (dispatch decode_data encode_data get_signature eth_chain_id
                  default_w3 get_async_w3 to_checksum_address
                  NO_STATE_OVERRIDE eth_call m calls nd)
    = match fst (eth_call handle (nd_world nd) prepared) with
      | inr output => decode_output decode_data output sig None None
      | inl e => Raise e
      end.
Proof.
  intros handle sig code Hargs Henc.
  assert (Hne : exists a l, call_args = a :: l).
  { unfold get_args in Hargs.
    destruct (encode_calls encode_data calls); inversion Hargs. now do 2 eexists. }
  destruct Hne as (a & l & ->).
  assert (Hprep : exists prepared,
             prep_args encode_data (to_checksum_address (mc_contract_address m)) sig
                       (Some (a :: l)) (mc_block_id m) None
                       (Some (mc_gas_limit m)) code = Ok prepared).
  { unfold prep_args. rewrite Henc. now eexists. }
  destruct Hprep as [prepared Hprep]. exists prepared.
  split; [exact Hprep|].
  unfold dispatch. rewrite Hargs. unfold aggregate_call. subst code.
  destruct (state_override_supported eth_chain_id NO_STATE_OVERRIDE (mc_w3 m))
    eqn:Hsup;
    cbn [call_init truthy_str]; unfold call_coroutine;
    cbn [pick_w3 w3 state_override_code truthy_str andb];
    rewrite ?Hsup, ?andb_false_r; cbn [negb andb];
    unfold call_node;
    cbn [target signature args returns or_list or_int truthy_int block_id
         origin gas_limit state_override_code];
    fold sig; rewrite Hprep; fold handle;
    destruct (eth_call handle (nd_world nd) prepared) as [[e|output] world];
    split; reflexivity.
Qed.
End DispatchFacts.

(** ** The single-call path on the demo node *)

Lemma prep_args_shape_witness :
  let args := Some [PyAtom (AInt 5)] in
  demo_encode_data 1 args = Ok 1 /\
  exists call_dict rest,
    prep_args demo_encode_data "0xT"%string 1%nat args None (Some "0xF"%string)
              (Some 0) (Some "0x6080"%string)
    = Ok (PyDict call_dict :: rest) /\
    NoDup (map fst call_dict) /\
    dict_get call_dict "to"%string = Some (PyAtom (AStr "0xT"%string)) /\
    dict_get call_dict "data"%string = Some (PyAtom (ABytes 1)) /\
    dict_get call_dict "from"%string
    = (if truthy_str (Some "0xF"%string)
       then option_map (fun o => PyAtom (AStr o)) (Some "0xF"%string) else None) /\
    dict_get call_dict "gas"%string
    = (if truthy_int (Some 0)
       then option_map (fun g => PyAtom (AInt g)) (Some 0) else None) /\
    (truthy_str (Some "0x6080"%string) = false ->
     rest = match @None Z with
            | Some b => [PyAtom (AInt b)]
            | None => []
            end) /\
    (forall c, Some "0x6080"%string = Some c ->
               truthy_str (Some "0x6080"%string) = true ->
     rest = [ match @None Z with
              | Some b => PyAtom (AInt b)
              | None => PyAtom (AStr "latest"%string)
              end;
              PyDict [("0xT"%string, PyDict [("code"%string, PyAtom (AStr c))])] ]).
Proof.
  intros args. split; [reflexivity|].
  apply (@prep_args_shape nat Z demo_encode_data "0xT"%string 1%nat args None
           (Some "0xF"%string) (Some 0) (Some "0x6080"%string) 1).
  reflexivity.
Defined.

Lemma coroutine_unsupported_override_witness :
  let made := call_init (Bytes := Z) demo_get_signature (fun a : string => a)
                        "0xT"%string "f()(uint256)"%string None None None
                        (Some "0x6080"%string) (Some 324) None in
  let call := fst made in
  let slots := snd made in
  let nd := {| nd_world := tt; nd_calls := [] |} in
  truthy_str (state_override_code slots) = true /\
  state_override_supported (fun h : Z => h) [324] (pick_w3 1 slots None) = false /\
  call_coroutine demo_decode_atoms demo_encode_data (fun h : Z => h) 1
                 (fun h : Z => h) [324] demo_eth_call call slots None None None nd
  = (Raise (Exception "State override is not supported on chain 324."%string), nd).
Proof.
  intros made call slots nd. split; [reflexivity|]. split; [reflexivity|].
  apply (proj1 (@coroutine_unsupported_override nat Z Z demo_decode_atoms
                  demo_encode_data Z (fun h : Z => h) 1 (fun h : Z => h) [324]
                  unit demo_eth_call call slots None None None nd
                  eq_refl eq_refl)).
Defined.

Lemma dispatch_request_witness :
  let m := demo_multicall 1 in
  let calls := [ {| target := "0xA"%string; function := "f()(uint256)"%string; args := None;
                    signature := 1%nat; returns := None |} ] in
  let call_args := [PyAtom (ABool false);
                    PySeq [PySeq [PyAtom (AStr "0xA"%string); PyAtom (ABytes 0)]]] in
  let nd := {| nd_world := tt; nd_calls := [] |} in
  get_args demo_encode_data m calls = Ok call_args /\
  demo_encode_data (demo_get_signature multicall_sig) (Some call_args) = Ok 2 /\
  exists prepared,
    prep_args demo_encode_data (mc_contract_address m)
              (demo_get_signature multicall_sig) (Some call_args)
              (mc_block_id m) None (Some (mc_gas_limit m))
              (if state_override_supported (fun h : Z => h) [324] (mc_w3 m)
               then Some (mc_bytecode m) else None)
    = Ok prepared /\
    nd_calls (snd (dispatch demo_decode_atoms demo_encode_data demo_get_signature
                            (fun h : Z => h) 1 (fun h : Z => h)
                            (fun a : string => a) [324] demo_eth_call m calls nd))
    = nd_calls nd ++ [(mc_w3 m, prepared)] /\
    fst (dispatch demo_decode_atoms demo_encode_data demo_get_signature
                  (fun h : Z => h) 1 (fun h : Z => h)
                  (fun a : string => a) [324] demo_eth_call m calls nd)
    = match fst (demo_eth_call (mc_w3 m) (nd_world nd) prepared) with
      | inr output =>
          decode_output demo_decode_atoms output
                        (demo_get_signature multicall_sig) None None
      | inl e => Raise e
      end.
Proof.
  intros m calls call_args nd. split; [reflexivity|]. split; [reflexivity|].
  apply (@dispatch_request nat Z Z demo_decode_atoms demo_encode_data
           demo_get_signature Z (fun h : Z => h) 1 (fun h : Z => h)
           (fun a : string => a) [324] unit demo_eth_call m calls nd
           call_args 2 eq_refl eq_refl).
Defined.

(** On the demo node the request of a dispatch has three positional
    arguments on chain 1 (call dict, ["latest"], override) and one on
    chain 324, where state override is not supported. *)
Example dispatch_demo_requests :
  let calls := [ {| target := "0xA"%string; function := "f()(uint256)"%string;
                    args := None; signature := 1%nat; returns := None |} ] in
  let nd := {| nd_world := tt; nd_calls := [] |} in
  let sent chain :=
    map (fun request => List.length (snd request))
        (nd_calls (snd (dispatch demo_decode_atoms demo_encode_data
                                 demo_get_signature (fun h : Z => h) 1
                                 (fun h : Z => h) (fun a : string => a) [324]
                                 demo_eth_call (demo_multicall chain) calls nd))) in
  sent 1 = [3%nat] /\ sent 324 = [1%nat].
Proof. split; reflexivity. Qed.
